(** * AgriGuard: the NEAR insurance contract, embedded and verified

    Shallow embedding of [AgriGuardContract] (the near-sdk-js contract of the
    repository) together with the properties of its settlement callback,
    policy life cycle, claim processing, pricing, validation, queries and
    oracle gate, of its statistics and views, and of the USDC formatting
    helpers of the contract and of the client library.

    Conventions of the embedding.
    - A [string] amount of USDC micro-units is the [Z] that [BigInt] reads
      from it; BigInt division truncates, hence [Z.quot].
    - A JavaScript [number] is the rational it denotes ([Q]); counters and
      timestamps, which only ever hold integers, are [nat], [N] or [Z].
    - A [LookupMap] is a [gmap] keyed by strings; [get] of an absent key is
      [None] (JavaScript [null]).
    - A call runs in the monad [M]: it either returns a value with the new
      contract state or panics, and a panic discards every write of the call.
    - [near.log] output is not modelled, and calls carry no attached
      deposit. [init] is the constructor followed by the [init] method. *)

From Stdlib Require Import ZArith QArith Qround Qabs String Ascii List Lia.

From stdpp Require Import gmap strings pretty.

Local Open Scope string_scope.

Local Open Scope Z_scope.

(** ** Constants *)

Definition USDC_CONTRACT : string := "usdc.fakes.testnet".

Definition BASIS_POINTS : Z := 10000.

Definition MIN_PREMIUM_USDC : Z := 1000000.

Definition MAX_COVERAGE_USDC : Z := 1000000000000.

Definition DEFAULT_PREMIUM_RATE : Z := 500.

(** Policy statuses are strings at run time: [update_policy_status] stores
    whatever string it is handed. *)
Definition pending : string := "pending".

Definition active : string := "active".

Definition expired : string := "expired".

Definition claimed : string := "claimed".

(** ** Data model *)

Record Location := { lat : Q; lng : Q }.

Record WeatherParameters := {
  minTemp : Q;
  maxTemp : Q;
  minRainfall : Q;
  maxRainfall : Q
}.

Record PayoutTrigger := {
  triggeredAt : string;
  actualRainfall : Q;
  expectedRainfall : Q;
  weatherCid : string
}.

Record InsurancePolicy := {
  policyId : string;
  farmer : string;
  cropType : string;
  farmLocation : Location;
  coverageAmount : Z;
  premium : Z;
  startDate : string;
  endDate : string;
  weatherParameters : WeatherParameters;
  isActive : bool;
  claimsPaid : Z;
  premiumPaid : Z;
  status : string;
  weatherDataCids : list string;
  payoutTrigger : option PayoutTrigger
}.

Record WeatherData := {
  stationId : string;
  timestamp : string;
  temperature : Q;
  rainfall : Q;
  humidity : Q;
  windSpeed : Q;
  filecoinCid : option string
}.

Inductive ClaimStatus := ClaimPending | ClaimApproved | ClaimRejected | ClaimPaid.

Record Claim := {
  claimId : string;
  claim_policyId : string;
  claim_farmer : string;
  claimAmount : Z;
  reason : string;
  weatherData : WeatherData;
  claim_status : ClaimStatus;
  claim_timestamp : string
}.

(** An [ft_transfer] receipt scheduled on the USDC contract by
    [triggerPayout]. *)
Record Promise := { receiver_id : string; transfer_amount : Z }.

Record Contract := {
  policies : gmap string InsurancePolicy;
  claims : gmap string Claim;
  authorizedOracles : gmap string bool;
  weatherDataStorage : gmap string WeatherData;
  totalPolicies : nat;
  totalClaims : nat;
  totalPremiumsCollected : Z;
  totalClaimsPaid : Z;
  owner : string;
  promises : list Promise
}.

(** What the NEAR runtime tells a call about itself. *)
Record Ctx := {
  predecessorAccountId : string;
  currentAccountId : string;
  blockTimestamp : N;
  now : Z
}.

Definition ClaimStatus_eqb (a b : ClaimStatus) : bool :=
  match a, b with
  | ClaimPending, ClaimPending | ClaimApproved, ClaimApproved
  | ClaimRejected, ClaimRejected | ClaimPaid, ClaimPaid => true
  | _, _ => false
  end.

(** ** Field updates *)

Definition policy_activate (p : InsurancePolicy) (amount : Z) : InsurancePolicy :=
  {| policyId := policyId p; farmer := farmer p; cropType := cropType p;
     farmLocation := farmLocation p; coverageAmount := coverageAmount p;
     premium := premium p; startDate := startDate p; endDate := endDate p;
     weatherParameters := weatherParameters p; isActive := true;
     claimsPaid := claimsPaid p; premiumPaid := amount; status := active;
     weatherDataCids := weatherDataCids p; payoutTrigger := payoutTrigger p |}.

Definition policy_pay_claim (p : InsurancePolicy) (amount : Z) : InsurancePolicy :=
  {| policyId := policyId p; farmer := farmer p; cropType := cropType p;
     farmLocation := farmLocation p; coverageAmount := coverageAmount p;
     premium := premium p; startDate := startDate p; endDate := endDate p;
     weatherParameters := weatherParameters p; isActive := isActive p;
     claimsPaid := claimsPaid p + amount; premiumPaid := premiumPaid p;
     status := claimed;
     weatherDataCids := weatherDataCids p; payoutTrigger := payoutTrigger p |}.

Definition policy_set_status (p : InsurancePolicy) (st : string)
    (tr : option PayoutTrigger) : InsurancePolicy :=
  {| policyId := policyId p; farmer := farmer p; cropType := cropType p;
     farmLocation := farmLocation p; coverageAmount := coverageAmount p;
     premium := premium p; startDate := startDate p; endDate := endDate p;
     weatherParameters := weatherParameters p; isActive := isActive p;
     claimsPaid := claimsPaid p; premiumPaid := premiumPaid p; status := st;
     weatherDataCids := weatherDataCids p; payoutTrigger := tr |}.

Definition claim_set (c : Claim) (amount : Z) (st : ClaimStatus) : Claim :=
  {| claimId := claimId c; claim_policyId := claim_policyId c;
     claim_farmer := claim_farmer c; claimAmount := amount; reason := reason c;
     weatherData := weatherData c; claim_status := st;
     claim_timestamp := claim_timestamp c |}.

Definition with_policies (s : Contract) (m : gmap string InsurancePolicy) : Contract :=
  {| policies := m; claims := claims s; authorizedOracles := authorizedOracles s;
     weatherDataStorage := weatherDataStorage s; totalPolicies := totalPolicies s;
     totalClaims := totalClaims s;
     totalPremiumsCollected := totalPremiumsCollected s;
     totalClaimsPaid := totalClaimsPaid s; owner := owner s;
     promises := promises s |}.

Definition with_claims (s : Contract) (m : gmap string Claim) : Contract :=
  {| policies := policies s; claims := m; authorizedOracles := authorizedOracles s;
     weatherDataStorage := weatherDataStorage s; totalPolicies := totalPolicies s;
     totalClaims := totalClaims s;
     totalPremiumsCollected := totalPremiumsCollected s;
     totalClaimsPaid := totalClaimsPaid s; owner := owner s;
     promises := promises s |}.

Definition with_authorizedOracles (s : Contract) (m : gmap string bool) : Contract :=
  {| policies := policies s; claims := claims s; authorizedOracles := m;
     weatherDataStorage := weatherDataStorage s; totalPolicies := totalPolicies s;
     totalClaims := totalClaims s;
     totalPremiumsCollected := totalPremiumsCollected s;
     totalClaimsPaid := totalClaimsPaid s; owner := owner s;
     promises := promises s |}.

Definition with_weatherDataStorage (s : Contract) (m : gmap string WeatherData) : Contract :=
  {| policies := policies s; claims := claims s;
     authorizedOracles := authorizedOracles s;
     weatherDataStorage := m; totalPolicies := totalPolicies s;
     totalClaims := totalClaims s;
     totalPremiumsCollected := totalPremiumsCollected s;
     totalClaimsPaid := totalClaimsPaid s; owner := owner s;
     promises := promises s |}.

Definition with_totalPolicies (s : Contract) (n : nat) : Contract :=
  {| policies := policies s; claims := claims s;
     authorizedOracles := authorizedOracles s;
     weatherDataStorage := weatherDataStorage s; totalPolicies := n;
     totalClaims := totalClaims s;
     totalPremiumsCollected := totalPremiumsCollected s;
     totalClaimsPaid := totalClaimsPaid s; owner := owner s;
     promises := promises s |}.

Definition with_totalClaims (s : Contract) (n : nat) : Contract :=
  {| policies := policies s; claims := claims s;
     authorizedOracles := authorizedOracles s;
     weatherDataStorage := weatherDataStorage s; totalPolicies := totalPolicies s;
     totalClaims := n;
     totalPremiumsCollected := totalPremiumsCollected s;
     totalClaimsPaid := totalClaimsPaid s; owner := owner s;
     promises := promises s |}.

Definition with_totalPremiumsCollected (s : Contract) (z : Z) : Contract :=
  {| policies := policies s; claims := claims s;
     authorizedOracles := authorizedOracles s;
     weatherDataStorage := weatherDataStorage s; totalPolicies := totalPolicies s;
     totalClaims := totalClaims s;
     totalPremiumsCollected := z;
     totalClaimsPaid := totalClaimsPaid s; owner := owner s;
     promises := promises s |}.

Definition with_totalClaimsPaid (s : Contract) (z : Z) : Contract :=
  {| policies := policies s; claims := claims s;
     authorizedOracles := authorizedOracles s;
     weatherDataStorage := weatherDataStorage s; totalPolicies := totalPolicies s;
     totalClaims := totalClaims s;
     totalPremiumsCollected := totalPremiumsCollected s;
     totalClaimsPaid := z; owner := owner s;
     promises := promises s |}.

Definition with_promises (s : Contract) (l : list Promise) : Contract :=
  {| policies := policies s; claims := claims s;
     authorizedOracles := authorizedOracles s;
     weatherDataStorage := weatherDataStorage s; totalPolicies := totalPolicies s;
     totalClaims := totalClaims s;
     totalPremiumsCollected := totalPremiumsCollected s;
     totalClaimsPaid := totalClaimsPaid s; owner := owner s;
     promises := l |}.

(** ** The call monad: state and panics *)

Inductive Outcome (A : Type) : Type :=
| Return (a : A) (s : Contract)
| Panic (msg : string).

Arguments Return {A} a s.

Arguments Panic {A} msg.

Definition M (A : Type) : Type := Contract -> Outcome A.

Definition ret {A} (a : A) : M A := fun s => Return a s.

Definition bind {A B} (m : M A) (k : A -> M B) : M B :=
  fun s => match m s with
           | Return a s' => k a s'
           | Panic msg => Panic msg
           end.

Notation "'let!' x ':=' m 'in' k" := (bind m (fun x => k))
  (at level 10, x name, m at level 100, k at level 200).

Notation "m '>>' k" := (bind m (fun _ => k))
  (at level 100, k at level 200, right associativity).

(** near-sdk-js [assert]: throws when the condition is false. [throw] is a
    plain [throw new Error]. *)
Definition assert (b : bool) (msg : string) : M unit :=
  fun s => if b then Return tt s else Panic ("assertion failed: " +:+ msg).

Definition throw {A} (msg : string) : M A := fun _ => Panic msg.

Definition gets {A} (f : Contract -> A) : M A := fun s => Return (f s) s.

Definition modify (f : Contract -> Contract) : M unit := fun s => Return tt (f s).

(** JavaScript [number] comparisons on rationals. *)
Definition Qleb (x y : Q) : bool := Qle_bool x y.

Definition Qltb (x y : Q) : bool := negb (Qle_bool y x).

(** [String.prototype.toLowerCase] on the ASCII range; bytes outside it are
    kept, which never turns a non-crop name into one of [validCrops]. *)
Definition lower_ascii (c : ascii) : ascii :=
  let n := nat_of_ascii c in
  if ((65 <=? n) && (n <=? 90))%nat then ascii_of_nat (n + 32) else c.

Fixpoint toLowerCase (s : string) : string :=
  match s with
  | EmptyString => EmptyString
  | String c r => String (lower_ascii c) (toLowerCase r)
  end.

Definition includes (l : list string) (x : string) : bool :=
  existsb (String.eqb x) l.

(** [assert(x !== null, msg)] followed by uses of [x]. *)
Definition require_some {A} (o : option A) (msg : string) : M A :=
  match o with
  | Some a => ret a
  | None => fun _ => Panic ("assertion failed: " +:+ msg)
  end.

(** ** Premium pricing *)

Definition cropRiskMultipliers : list (string * Q) :=
  [ ("wheat", 1); ("corn", 12 # 10); ("rice", 15 # 10); ("soybeans", 11 # 10);
    ("cotton", 13 # 10); ("barley", 1); ("oats", 1); ("tomatoes", 14 # 10);
    ("potatoes", 12 # 10); ("onions", 12 # 10); ("default", 1) ]%Q.

Fixpoint table_get (t : list (string * Q)) (k : string) : option Q :=
  match t with
  | [] => None
  | (k', v) :: r => if String.eqb k' k then Some v else table_get r k
  end.

(** [cropRiskMultipliers[key] || cropRiskMultipliers['default']]: every
    multiplier of the table is non-zero, so only a missing key falls back. *)
Definition cropMultiplier (cropType : string) : Q :=
  match table_get cropRiskMultipliers (toLowerCase cropType) with
  | Some m => m
  | None => 1%Q
  end.

Definition calculateGeographicalRisk (farmLocation : Location) : Q :=
  let l := Qabs (lat farmLocation) in
  if Qltb l 10 then (13 # 10)%Q
  else if Qltb l (235 # 10) then (12 # 10)%Q
  else if Qltb l 35 then 1%Q
  else if Qltb l 50 then (11 # 10)%Q
  else (12 # 10)%Q.

(** The two [Math.floor] steps. On every pair of table entries the double
    precision product rounds to the same integer as the exact one. *)
Definition premiumRate (cropType : string) (farmLocation : Location) : Z :=
  let r1 := Qfloor (inject_Z DEFAULT_PREMIUM_RATE * cropMultiplier cropType) in
  Qfloor (inject_Z r1 * calculateGeographicalRisk farmLocation).

Definition calculatePremium (coverageAmount : Z) (cropType : string)
    (farmLocation : Location) : Z :=
  let baseAmount := coverageAmount in
  let premium := Z.quot (baseAmount * premiumRate cropType farmLocation) BASIS_POINTS in
  let minPremium := MIN_PREMIUM_USDC in
  if premium <? minPremium then minPremium else premium.

Definition validCrops : list string :=
  ["wheat"; "corn"; "rice"; "soybeans"; "cotton"; "barley"; "oats";
   "tomatoes"; "potatoes"; "onions"].

Definition DAY_MS : Z := 24 * 60 * 60 * 1000.

(** Comparisons of [getTime()] values; an invalid date gives [NaN], and every
    comparison with [NaN] is false. *)
Definition time_cmp (f : Z -> Z -> bool) (a b : option Z) : bool :=
  match a, b with
  | Some x, Some y => f x y
  | _, _ => false
  end.

Definition time_diff (a b : option Z) : option Z :=
  match a, b with
  | Some x, Some y => Some (x - y)
  | _, _ => None
  end.

Section AgriGuardContract.

(** Library functions the contract calls.
    - [JSON_policyId msg] is the storage key that [JSON.parse(msg).policyId]
      denotes, [None] when the [try] block throws.
    - [Date_getTime str] is [new Date(str).getTime()], [None] for an invalid
      date.
    - [LookupMap_entries] is what a [for ... of] loop over the policy
      [LookupMap] enumerates, [None] when the collection cannot be iterated. *)
Variable JSON_policyId : string -> option string.

Variable Date_getTime : string -> option Z.

Variable LookupMap_entries :
  gmap string InsurancePolicy -> option (list (string * InsurancePolicy)).

Definition init (owner_ : string) : Contract :=
  {| policies := ∅; claims := ∅;
     authorizedOracles := <["weather-oracle.testnet" := true]> ∅;
     weatherDataStorage := ∅; totalPolicies := 0; totalClaims := 0;
     totalPremiumsCollected := 0; totalClaimsPaid := 0; owner := owner_;
     promises := [] |}.

Definition validatePolicyInputs (ctx : Ctx) (cropType : string)
    (farmLocation : Location) (coverageAmount : Z) (startDate endDate : string)
    (weatherParameters : WeatherParameters) : M unit :=
  let coverage := coverageAmount in
  assert (MIN_PREMIUM_USDC <=? coverage) "Coverage amount below minimum required" >>
  assert (coverage <=? MAX_COVERAGE_USDC) "Coverage amount exceeds maximum allowed" >>
  assert (includes validCrops (toLowerCase cropType))
         ("Invalid crop type: " +:+ cropType) >>
  assert (Qleb (-90) (lat farmLocation) && Qleb (lat farmLocation) 90)
         "Invalid latitude" >>
  assert (Qleb (-180) (lng farmLocation) && Qleb (lng farmLocation) 180)
         "Invalid longitude" >>
  assert (Qltb (minTemp weatherParameters) (maxTemp weatherParameters))
         "Invalid temperature range" >>
  assert (Qltb (minRainfall weatherParameters) (maxRainfall weatherParameters))
         "Invalid rainfall range" >>
  assert (Qleb (-50) (minTemp weatherParameters)
          && Qleb (maxTemp weatherParameters) 60)
         "Temperature out of reasonable range" >>
  assert (Qleb 0 (minRainfall weatherParameters)
          && Qleb (maxRainfall weatherParameters) 5000)
         "Rainfall out of reasonable range" >>
  let start := Date_getTime startDate in
  let end_ := Date_getTime endDate in
  let now_ := Some (now ctx) in
  assert (time_cmp Z.geb start now_) "Policy start date must be in the future" >>
  assert (time_cmp Z.gtb end_ start) "Policy end date must be after start date" >>
  assert (time_cmp Z.geb (time_diff end_ start) (Some (30 * DAY_MS)))
         "Policy duration must be at least 30 days" >>
  assert (time_cmp Z.leb (time_diff end_ start) (Some (365 * DAY_MS)))
         "Policy duration cannot exceed 365 days".

Definition createPolicy (ctx : Ctx) (cropType : string) (farmLocation : Location)
    (coverageAmount : Z) (startDate endDate : string)
    (weatherParameters : WeatherParameters) : M string :=
  let farmer_ := predecessorAccountId ctx in
  validatePolicyInputs ctx cropType farmLocation coverageAmount startDate endDate
    weatherParameters >>
  let premium_ := calculatePremium coverageAmount cropType farmLocation in
  let! n := gets totalPolicies in
  let policyId_ := "policy_" +:+ pretty (n + 1)%nat in
  let policy :=
    {| policyId := policyId_; farmer := farmer_; cropType := cropType;
       farmLocation := farmLocation; coverageAmount := coverageAmount;
       premium := premium_; startDate := startDate; endDate := endDate;
       weatherParameters := weatherParameters; isActive := false;
       claimsPaid := 0; premiumPaid := 0; status := pending;
       weatherDataCids := []; payoutTrigger := None |} in
  modify (fun s => with_policies s (<[policyId_ := policy]> (policies s))) >>
  modify (fun s => with_totalPolicies s (totalPolicies s + 1)) >>
  ret policyId_.

(** The settlement callback of the fungible token. *)
Definition ft_on_transfer (ctx : Ctx) (sender_id : string) (amount : Z)
    (msg : string) : M Z :=
  assert (String.eqb (predecessorAccountId ctx) USDC_CONTRACT)
         ("Only " +:+ USDC_CONTRACT +:+ " can call ft_on_transfer") >>
  match JSON_policyId msg with
  | None => ret amount
  | Some policyId_ =>
    let! found := gets (fun s => policies s !! policyId_) in
    match found with
    | None => ret amount
    | Some policy =>
      if negb (String.eqb (farmer policy) sender_id) then ret amount
      else if amount <? premium policy then ret amount
      else
        let policy' := policy_activate policy amount in
        modify (fun s => with_policies s (<[policyId_ := policy']> (policies s))) >>
        modify (fun s => with_totalPremiumsCollected s
                           (totalPremiumsCollected s + amount)) >>
        let excess := amount - premium policy' in
        ret excess
    end
  end.

(** Schedules the [ft_transfer] on the USDC contract. The guard compares the
    caller of the running transaction with the contract's own account, also
    when the method is reached from inside the contract. *)
Definition triggerPayout (ctx : Ctx) (recipient : string) (amount : Z) : M unit :=
  assert (String.eqb (predecessorAccountId ctx) (currentAccountId ctx))
         "Only contract can trigger payouts" >>
  modify (fun s => with_promises s
            (promises s ++ [{| receiver_id := recipient; transfer_amount := amount |}])).

Definition executePayout (ctx : Ctx) (claimId_ : string) : M unit :=
  let! found := gets (fun s => claims s !! claimId_) in
  match found with
  | None => ret tt
  | Some claim =>
    if negb (ClaimStatus_eqb (claim_status claim) ClaimApproved) then ret tt
    else
      triggerPayout ctx (claim_farmer claim) (claimAmount claim) >>
      let claim' := claim_set claim (claimAmount claim) ClaimPaid in
      modify (fun s => with_claims s (<[claimId_ := claim']> (claims s))) >>
      let! policy := gets (fun s => policies s !! claim_policyId claim') in
      match policy with
      | Some p =>
        modify (fun s => with_policies s
                  (<[claim_policyId claim' := policy_pay_claim p (claimAmount claim')]>
                     (policies s)))
      | None => ret tt
      end >>
      modify (fun s => with_totalClaimsPaid s
                         (totalClaimsPaid s + claimAmount claim'))
  end.

(** The payout percentage of an observation against the thresholds of a
    policy, with the flag [shouldPay]. *)
Definition evaluateThresholds (w : WeatherData) (params : WeatherParameters)
    : bool * Z :=
  let shouldPay := false in
  let payoutPercentage := 0 in
  let '(shouldPay, payoutPercentage) :=
    if Qltb (temperature w) (minTemp params) || Qltb (maxTemp params) (temperature w)
    then (true, Z.max payoutPercentage 50)
    else (shouldPay, payoutPercentage) in
  let '(shouldPay, payoutPercentage) :=
    if Qltb (rainfall w) (minRainfall params) || Qltb (maxRainfall params) (rainfall w)
    then (true, Z.max payoutPercentage 60)
    else (shouldPay, payoutPercentage) in
  (shouldPay, payoutPercentage).

Definition processClaimAutomatically (ctx : Ctx) (claimId_ : string) : M unit :=
  let! found := gets (fun s => claims s !! claimId_) in
  match found with
  | None => ret tt
  | Some claim =>
    let! policy := gets (fun s => policies s !! claim_policyId claim) in
    match policy with
    | None => ret tt
    | Some p =>
      let '(shouldPay, payoutPercentage) :=
        evaluateThresholds (weatherData claim) (weatherParameters p) in
      if shouldPay then
        let claimAmount_ := Z.quot (coverageAmount p * payoutPercentage) 100 in
        let claim' := claim_set claim claimAmount_ ClaimApproved in
        modify (fun s => with_claims s (<[claimId_ := claim']> (claims s))) >>
        executePayout ctx claimId_
      else ret tt
    end
  end.

Definition fileClaim (ctx : Ctx) (policyId_ : string) (reason_ : string)
    (weatherData_ : WeatherData) : M string :=
  let farmer_ := predecessorAccountId ctx in
  let! found := gets (fun s => policies s !! policyId_) in
  let! policy := require_some found "Policy not found" in
  assert (String.eqb (farmer policy) farmer_) "Only policy owner can file claims" >>
  assert (isActive policy) "Policy is not active" >>
  let! n := gets totalClaims in
  let claimId_ := "claim_" +:+ pretty (n + 1)%nat in
  let claim :=
    {| claimId := claimId_; claim_policyId := policyId_; claim_farmer := farmer_;
       claimAmount := 0; reason := reason_; weatherData := weatherData_;
       claim_status := ClaimPending;
       claim_timestamp := pretty (blockTimestamp ctx) |} in
  modify (fun s => with_claims s (<[claimId_ := claim]> (claims s))) >>
  modify (fun s => with_totalClaims s (totalClaims s + 1)) >>
  processClaimAutomatically ctx claimId_ >>
  ret claimId_.

Definition adminTriggerPayout (ctx : Ctx) (recipient : string) (amount : Z)
    (claimId_ : string) : M unit :=
  let! owner_ := gets owner in
  assert (String.eqb (predecessorAccountId ctx) owner_)
         "Only contract owner can trigger manual payouts" >>
  let! found := gets (fun s => claims s !! claimId_) in
  let! claim := require_some found "Claim not found" in
  assert (ClaimStatus_eqb (claim_status claim) ClaimApproved) "Claim not approved" >>
  triggerPayout ctx recipient amount >>
  let claim' := claim_set claim (claimAmount claim) ClaimPaid in
  modify (fun s => with_claims s (<[claimId_ := claim']> (claims s))) >>
  let! policy := gets (fun s => policies s !! claim_policyId claim') in
  match policy with
  | Some p =>
    modify (fun s => with_policies s
              (<[claim_policyId claim' := policy_pay_claim p amount]> (policies s)))
  | None => ret tt
  end >>
  modify (fun s => with_totalClaimsPaid s (totalClaimsPaid s + amount)).

(** Only logs in the source. *)
Definition checkAutomaticClaims (w : WeatherData) : M unit := ret tt.

Definition is_authorized (caller : string) (s : Contract) : bool :=
  match authorizedOracles s !! caller with
  | Some true => true
  | _ => false
  end.

Definition submitWeatherData (ctx : Ctx) (stationId_ : string)
    (temperature_ rainfall_ humidity_ windSpeed_ : Q)
    (filecoinCid_ : option string) : M unit :=
  let caller := predecessorAccountId ctx in
  let! ok := gets (is_authorized caller) in
  assert ok "Only authorized oracles can submit weather data" >>
  let weatherData_ :=
    {| stationId := stationId_; timestamp := pretty (blockTimestamp ctx);
       temperature := temperature_; rainfall := rainfall_;
       humidity := humidity_; windSpeed := windSpeed_;
       filecoinCid := filecoinCid_ |} in
  let weatherDataKey := stationId_ +:+ "_" +:+ pretty (blockTimestamp ctx) in
  modify (fun s => with_weatherDataStorage s
            (<[weatherDataKey := weatherData_]> (weatherDataStorage s))) >>
  checkAutomaticClaims weatherData_.

(** Only logs in the source. *)
Definition updatePoliciesWithWeatherCid (stationId_ filecoinCid_ : string) : M unit :=
  ret tt.

Definition receive_weather (ctx : Ctx) (stationId_ : string) (timestamp_ : Z)
    (filecoinCid_ : string) : M unit :=
  let caller := predecessorAccountId ctx in
  let! ok := gets (is_authorized caller) in
  assert ok "Only authorized oracles can receive weather data" >>
  let weatherData_ :=
    {| stationId := stationId_; timestamp := pretty timestamp_;
       temperature := 0; rainfall := 0; humidity := 0; windSpeed := 0;
       filecoinCid := Some filecoinCid_ |} in
  let weatherDataKey := stationId_ +:+ "_" +:+ pretty timestamp_ in
  modify (fun s => with_weatherDataStorage s
            (<[weatherDataKey := weatherData_]> (weatherDataStorage s))) >>
  updatePoliciesWithWeatherCid stationId_ filecoinCid_.

Definition addOracle (ctx : Ctx) (oracle : string) : M unit :=
  let! owner_ := gets owner in
  assert (String.eqb (predecessorAccountId ctx) owner_) "Only owner can add oracles" >>
  modify (fun s => with_authorizedOracles s (<[oracle := true]> (authorizedOracles s))).

Definition removeOracle (ctx : Ctx) (oracle : string) : M unit :=
  let! owner_ := gets owner in
  assert (String.eqb (predecessorAccountId ctx) owner_) "Only owner can remove oracles" >>
  modify (fun s => with_authorizedOracles s (<[oracle := false]> (authorizedOracles s))).

(** ** Views *)

Definition getPolicy (policyId_ : string) (s : Contract) : option InsurancePolicy :=
  policies s !! policyId_.

Definition getClaim (claimId_ : string) (s : Contract) : option Claim :=
  claims s !! claimId_.

(** [policy.stationId]: the class [InsurancePolicy] declares no such field and
    no method of the contract ever writes one, so the read is [undefined]. *)
Definition policy_stationId (p : InsurancePolicy) : option string := None.

(** JavaScript truthiness of an optional string or number argument. *)
Definition truthy_string (o : option string) : option string :=
  match o with
  | Some s => if String.eqb s EmptyString then None else Some s
  | None => None
  end.

Definition limit_or (limit : option nat) (default : nat) : nat :=
  match limit with
  | Some (S n) => S n
  | _ => default
  end.

Fixpoint get_policies_loop (maxResults : nat) (station_id status_ : option string)
    (entries : list (string * InsurancePolicy)) (acc : list InsurancePolicy)
    : list InsurancePolicy :=
  match entries with
  | [] => acc
  | (_, policy) :: rest =>
    if (maxResults <=? length acc)%nat then acc
    else if match truthy_string station_id with
            | Some st => match policy_stationId policy with
                         | Some x => negb (String.eqb x st)
                         | None => true
                         end
            | None => false
            end
    then get_policies_loop maxResults station_id status_ rest acc
    else if match truthy_string status_ with
            | Some st => negb (String.eqb (status policy) st)
            | None => false
            end
    then get_policies_loop maxResults station_id status_ rest acc
    else get_policies_loop maxResults station_id status_ rest (acc ++ [policy])
  end.

Definition get_policies (station_id status_ : option string) (limit : option nat)
    : M (list InsurancePolicy) :=
  let maxResults := limit_or limit 100 in
  let! entries := gets (fun s => LookupMap_entries (policies s)) in
  match entries with
  | None => throw "TypeError: this.policies is not iterable"
  | Some l => ret (get_policies_loop maxResults station_id status_ l [])
  end.

(** ** The automation entry points *)

Definition create_policy (ctx : Ctx) (farmer_id crop_type : string)
    (coverage_amount premium_amount : Z) (rainfall_threshold : Q)
    (station_id season_start season_end : string) : M string :=
  let! n := gets totalPolicies in
  let policyId_ := "policy_" +:+ pretty n in
  modify (fun s => with_totalPolicies s (totalPolicies s + 1)) >>
  let policy :=
    {| policyId := policyId_; farmer := farmer_id; cropType := crop_type;
       farmLocation := {| lat := 0; lng := 0 |};
       coverageAmount := coverage_amount; premium := premium_amount;
       startDate := season_start; endDate := season_end;
       weatherParameters :=
         {| minTemp := 0; maxTemp := 0; minRainfall := 0; maxRainfall := 0 |};
       isActive := false; claimsPaid := 0; premiumPaid := 0; status := pending;
       weatherDataCids := []; payoutTrigger := None |} in
  modify (fun s => with_policies s (<[policyId_ := policy]> (policies s))) >>
  ret policyId_.

Definition process_policy_claims (ctx : Ctx) (policy_id : string)
    (actual_rainfall : Q) (weather_cid trigger_timestamp : string) : M bool :=
  let! found := gets (fun s => policies s !! policy_id) in
  match found with
  | None => throw ("Policy " +:+ policy_id +:+ " not found")
  | Some policy =>
    if negb (String.eqb (status policy) pending)
    then throw ("Policy " +:+ policy_id +:+ " is not pending (status: "
                +:+ status policy +:+ ")")
    else
      let rainfallThreshold : Q := 30%Q in
      if Qleb rainfallThreshold actual_rainfall then ret false
      else
        let policy' :=
          policy_set_status policy claimed
            (Some {| triggeredAt := trigger_timestamp;
                     actualRainfall := actual_rainfall;
                     expectedRainfall := rainfallThreshold;
                     weatherCid := weather_cid |}) in
        modify (fun s => with_policies s (<[policy_id := policy']> (policies s))) >>
        ret true
  end.

Definition update_policy_status (ctx : Ctx) (policy_id new_status : string) : M unit :=
  let! found := gets (fun s => policies s !! policy_id) in
  match found with
  | None => throw ("Policy " +:+ policy_id +:+ " not found")
  | Some policy =>
    let policy' := policy_set_status policy new_status (payoutTrigger policy) in
    modify (fun s => with_policies s (<[policy_id := policy']> (policies s)))
  end.

(** Only logs in the source. *)
Definition automated_weather_check (ctx : Ctx) (station_id : option string) : M unit :=
  ret tt.

(** ** Calls and traces *)

Inductive Call :=
| CreatePolicy (cropType : string) (farmLocation : Location) (coverageAmount : Z)
    (startDate endDate : string) (weatherParameters : WeatherParameters)
| FtOnTransfer (sender_id : string) (amount : Z) (msg : string)
| SubmitWeatherData (stationId : string) (temperature rainfall humidity windSpeed : Q)
    (filecoinCid : option string)
| FileClaim (policyId reason : string) (weatherData : WeatherData)
| TriggerPayout (recipient : string) (amount : Z)
| AdminTriggerPayout (recipient : string) (amount : Z) (claimId : string)
| AddOracle (oracle : string)
| RemoveOracle (oracle : string)
| ReceiveWeather (stationId : string) (timestamp : Z) (filecoinCid : string)
| Create_policy (farmer_id crop_type : string) (coverage_amount premium_amount : Z)
    (rainfall_threshold : Q) (station_id season_start season_end : string)
| ProcessPolicyClaims (policy_id : string) (actual_rainfall : Q)
    (weather_cid trigger_timestamp : string)
| UpdatePolicyStatus (policy_id new_status : string)
| AutomatedWeatherCheck (station_id : option string).

Definition discard {A} (m : M A) : M unit := m >> ret tt.

Definition run_call (ctx : Ctx) (c : Call) : M unit :=
  match c with
  | CreatePolicy crop loc cov sd ed wp => discard (createPolicy ctx crop loc cov sd ed wp)
  | FtOnTransfer sender amount msg => discard (ft_on_transfer ctx sender amount msg)
  | SubmitWeatherData st t r h w cid => submitWeatherData ctx st t r h w cid
  | FileClaim pid rsn w => discard (fileClaim ctx pid rsn w)
  | TriggerPayout rcp amount => triggerPayout ctx rcp amount
  | AdminTriggerPayout rcp amount cid => adminTriggerPayout ctx rcp amount cid
  | AddOracle o => addOracle ctx o
  | RemoveOracle o => removeOracle ctx o
  | ReceiveWeather st ts cid => receive_weather ctx st ts cid
  | Create_policy f c cov pr rt st ss se =>
      discard (create_policy ctx f c cov pr rt st ss se)
  | ProcessPolicyClaims pid r cid ts => discard (process_policy_claims ctx pid r cid ts)
  | UpdatePolicyStatus pid st => update_policy_status ctx pid st
  | AutomatedWeatherCheck st => automated_weather_check ctx st
  end.

(** A panicking transaction leaves the contract as it was. *)
Definition step (s : Contract) (e : Ctx * Call) : Contract :=
  match run_call (fst e) (snd e) s with
  | Return _ s' => s'
  | Panic _ => s
  end.

Definition run_trace (tr : list (Ctx * Call)) (s : Contract) : Contract :=
  fold_left step tr s.

End AgriGuardContract.

(** ** Concrete library instances and accounts for the scenarios *)

Definition dquote : ascii := "034"%char.

Definition backslash : ascii := "092"%char.

Fixpoint strip_prefix (p s : string) : option string :=
  match p, s with
  | EmptyString, _ => Some s
  | String a p', String b s' => if Ascii.eqb a b then strip_prefix p' s' else None
  | String _ _, EmptyString => None
  end.

Fixpoint read_plain_id (s : string) : option string :=
  match s with
  | EmptyString => None
  | String c r =>
    if Ascii.eqb c dquote then
      (if String.eqb r "}" then Some EmptyString else None)
    else if Ascii.eqb c backslash || (nat_of_ascii c <? 32)%nat
            || (126 <? nat_of_ascii c)%nat then None
    else option_map (String c) (read_plain_id r)
  end.

(** [JSON.parse(msg).policyId] on the messages that
    [JSON.stringify({ policyId })] builds for an identifier of printable ASCII
    characters without quotes or backslashes; any other message is treated
    as unreadable, which is all the scenarios below need. *)
Definition plain_policyId (msg : string) : option string :=
  match strip_prefix ("{" +:+ String dquote "policyId" +:+ String dquote ":"
                        +:+ String dquote EmptyString) msg with
  | Some r => read_plain_id r
  | None => None
  end.

Definition policy_msg (id : string) : string :=
  "{" +:+ String dquote "policyId" +:+ String dquote ":"
      +:+ String dquote id +:+ String dquote "}".

(** [new Date(str).getTime()] for the date-only ISO strings of the scenarios
    (UTC midnight, in milliseconds). *)
Definition iso_dates (str : string) : option Z :=
  if String.eqb str "2030-01-01" then Some 1893456000000
  else if String.eqb str "2030-03-01" then Some 1898553600000
  else if String.eqb str "2030-06-30" then Some 1909008000000
  else if String.eqb str "2030-12-31" then Some 1924905600000
  else None.

(** An iterable policy collection (what an [UnorderedMap] would give) and the
    plain [LookupMap], which has no iterator. *)
Definition entries_iterable (m : gmap string InsurancePolicy)
    : option (list (string * InsurancePolicy)) := Some (map_to_list m).

Definition entries_not_iterable (m : gmap string InsurancePolicy)
    : option (list (string * InsurancePolicy)) := None.

Definition contract_account : string := "agriguard.testnet".

Definition farmer_account : string := "farmer.testnet".

Definition ctx_of (caller : string) : Ctx :=
  {| predecessorAccountId := caller; currentAccountId := contract_account;
     blockTimestamp := 1700000000000000000%N; now := 1890000000000 |}.

Definition wheat_thresholds : WeatherParameters :=
  {| minTemp := 5; maxTemp := 30; minRainfall := 300; maxRainfall := 1000 |}.

Definition temperate : Location := {| lat := 30; lng := -90 |}.

Definition tropical : Location := {| lat := 0; lng := 0 |}.

Definition new_york : Location := {| lat := 407128 # 10000; lng := -(740060 # 10000) |}.

Definition create_wheat (loc : Location) : Call :=
  CreatePolicy "wheat" loc 100000000 "2030-01-01" "2030-12-31" wheat_thresholds.

Definition extreme_weather : WeatherData :=
  {| stationId := "test_station"; timestamp := "1700000000000";
     temperature := 45; rainfall := 50; humidity := 60; windSpeed := 15;
     filecoinCid := None |}.

Definition mild_weather : WeatherData :=
  {| stationId := "test_station"; timestamp := "1700000000000";
     temperature := 20; rainfall := 500; humidity := 60; windSpeed := 15;
     filecoinCid := None |}.

Definition settle (payer : string) (amount : Z) (id : string) : Ctx * Call :=
  (ctx_of USDC_CONTRACT, FtOnTransfer payer amount (policy_msg id)).

Definition run (tr : list (Ctx * Call)) (s : Contract) : Contract :=
  run_trace plain_policyId iso_dates tr s.

Definition call (ctx : Ctx) (c : Call) : M unit :=
  run_call plain_policyId iso_dates ctx c.

(** ** Vocabulary of the properties *)

Section Vocabulary.

Variable JSON_policyId : string -> option string.
Variable Date_getTime : string -> option Z.

Local Notation step := (step JSON_policyId Date_getTime).

(** The failure of the caller check of [ft_on_transfer]. *)
Definition not_token_issuer_msg : string :=
  "assertion failed: Only usdc.fakes.testnet can call ft_on_transfer".

(** The refusals that [ft_on_transfer] tests for once the caller is known to
    be the token contract. The status of the policy is not among them. *)
Definition refused (s : Contract) (sender : string) (amount : Z) (msg : string)
    : Prop :=
  JSON_policyId msg = None
  \/ exists id, JSON_policyId msg = Some id
       /\ (policies s !! id = None
           \/ exists p, policies s !! id = Some p
                /\ (farmer p <> sender \/ amount < premium p)).

(** The conjunction of the assertions of [validatePolicyInputs]. *)
Definition inputs_ok (ctx : Ctx) (crop : string) (loc : Location) (cov : Z)
    (sd ed : string) (wp : WeatherParameters) : bool :=
  (MIN_PREMIUM_USDC <=? cov) && (cov <=? MAX_COVERAGE_USDC)
  && includes validCrops (toLowerCase crop)
  && (Qleb (-90) (lat loc) && Qleb (lat loc) 90)
  && (Qleb (-180) (lng loc) && Qleb (lng loc) 180)
  && Qltb (minTemp wp) (maxTemp wp)
  && Qltb (minRainfall wp) (maxRainfall wp)
  && (Qleb (-50) (minTemp wp) && Qleb (maxTemp wp) 60)
  && (Qleb 0 (minRainfall wp) && Qleb (maxRainfall wp) 5000)
  && time_cmp Z.geb (Date_getTime sd) (Some (now ctx))
  && time_cmp Z.gtb (Date_getTime ed) (Date_getTime sd)
  && time_cmp Z.geb (time_diff (Date_getTime ed) (Date_getTime sd))
       (Some (30 * DAY_MS))
  && time_cmp Z.leb (time_diff (Date_getTime ed) (Date_getTime sd))
       (Some (365 * DAY_MS)).

(** The policy that [createPolicy] stores under identifier [id]. *)
Definition new_policy (ctx : Ctx) (id crop : string) (loc : Location) (cov : Z)
    (sd ed : string) (wp : WeatherParameters) : InsurancePolicy :=
  {| policyId := id; farmer := predecessorAccountId ctx; cropType := crop;
     farmLocation := loc; coverageAmount := cov;
     premium := calculatePremium cov crop loc; startDate := sd; endDate := ed;
     weatherParameters := wp; isActive := false; claimsPaid := 0;
     premiumPaid := 0; status := pending; weatherDataCids := [];
     payoutTrigger := None |}.

(** The two threshold tests of [processClaimAutomatically]. *)
Definition temperature_breach (w : WeatherData) (params : WeatherParameters) : bool :=
  Qltb (temperature w) (minTemp params) || Qltb (maxTemp params) (temperature w).

Definition rainfall_breach (w : WeatherData) (params : WeatherParameters) : bool :=
  Qltb (rainfall w) (minRainfall params) || Qltb (maxRainfall params) (rainfall w).

(** The identifier [claim_N] and the claim that [fileClaim] stores under it,
    with the amount and status it has at each stage of the call. *)
Definition claim_key (n : nat) : string := "claim_" +:+ pretty n.

Definition filed_claim (ctx : Ctx) (n : nat) (pid rsn : string) (w : WeatherData)
    (amount : Z) (st : ClaimStatus) : Claim :=
  {| claimId := claim_key n; claim_policyId := pid;
     claim_farmer := predecessorAccountId ctx; claimAmount := amount;
     reason := rsn; weatherData := w; claim_status := st;
     claim_timestamp := pretty (blockTimestamp ctx) |}.

(** [coverageAmount * payoutPercentage / 100] in BigInt arithmetic. *)
Definition payout_amount (p : InsurancePolicy) (w : WeatherData) : Z :=
  Z.quot (coverageAmount p * snd (evaluateThresholds w (weatherParameters p))) 100.

(** The contract after a claim was filed and, when [paid], paid out at once. *)
Definition after_fileClaim (ctx : Ctx) (s : Contract) (pid rsn : string)
    (w : WeatherData) (p : InsurancePolicy) (paid : bool) : Contract :=
  let n := (totalClaims s + 1)%nat in
  let amt := payout_amount p w in
  if paid then
    {| policies := <[pid := policy_pay_claim p amt]> (policies s);
       claims := <[claim_key n := filed_claim ctx n pid rsn w amt ClaimPaid]>
                   (<[claim_key n := filed_claim ctx n pid rsn w amt ClaimApproved]>
                      (<[claim_key n := filed_claim ctx n pid rsn w 0 ClaimPending]>
                         (claims s)));
       authorizedOracles := authorizedOracles s;
       weatherDataStorage := weatherDataStorage s;
       totalPolicies := totalPolicies s; totalClaims := n;
       totalPremiumsCollected := totalPremiumsCollected s;
       totalClaimsPaid := totalClaimsPaid s + amt; owner := owner s;
       promises := promises s
                   ++ [{| receiver_id := predecessorAccountId ctx;
                          transfer_amount := amt |}] |}
  else
    with_totalClaims
      (with_claims s
         (<[claim_key n := filed_claim ctx n pid rsn w 0 ClaimPending]> (claims s)))
      n.

(** The contract after [adminTriggerPayout] went through for claim [c]. *)
Definition after_adminTriggerPayout (s : Contract) (rcp : string) (amount : Z)
    (cid : string) (c : Claim) : Contract :=
  {| policies := match policies s !! claim_policyId c with
                 | Some p => <[claim_policyId c := policy_pay_claim p amount]> (policies s)
                 | None => policies s
                 end;
     claims := <[cid := claim_set c (claimAmount c) ClaimPaid]> (claims s);
     authorizedOracles := authorizedOracles s;
     weatherDataStorage := weatherDataStorage s;
     totalPolicies := totalPolicies s; totalClaims := totalClaims s;
     totalPremiumsCollected := totalPremiumsCollected s;
     totalClaimsPaid := totalClaimsPaid s + amount; owner := owner s;
     promises := promises s
                 ++ [{| receiver_id := rcp; transfer_amount := amount |}] |}.

(** The calls that write to the claim store. *)
Definition touches_claims (c : Call) : bool :=
  match c with
  | FileClaim _ _ _ | AdminTriggerPayout _ _ _ => true
  | _ => false
  end.

(** Claim identifiers above the counter are free: [fileClaim] never
    overwrites a claim. Holds initially and is kept by every call. *)
Definition claims_fresh (s : Contract) : Prop :=
  forall n, (totalClaims s < n)%nat -> claims s !! claim_key n = None.

(** How a stored claim may differ after one call. *)
Definition claim_evolves (cl cl' : Claim) : Prop :=
  cl' = cl
  \/ (claim_status cl = ClaimApproved
      /\ cl' = claim_set cl (claimAmount cl) ClaimPaid).

(** Whether claim [k] is stored with status Paid. *)
Definition is_paid (s : Contract) (k : string) : bool :=
  match claims s !! k with
  | Some c => ClaimStatus_eqb (claim_status c) ClaimPaid
  | None => false
  end.

(** Number of calls of a trace at which claim [k] enters status Paid. *)
Fixpoint paid_transitions (k : string) (s : Contract) (tr : list (Ctx * Call)) : nat :=
  match tr with
  | [] => 0
  | e :: tr' =>
    let s' := step s e in
    ((if negb (is_paid s k) && is_paid s' k then 1 else 0)
     + paid_transitions k s' tr')%nat
  end.

(** The claim a call acts on: [adminTriggerPayout] the one it names,
    [fileClaim] the one it stores under the next identifier and hands to
    [processClaimAutomatically]. No other call reaches [executePayout]. *)
Definition call_claim (s : Contract) (c : Call) : option string :=
  match c with
  | FileClaim _ _ _ => Some (claim_key (totalClaims s + 1))
  | AdminTriggerPayout _ _ cid => Some cid
  | _ => None
  end.

(** Number of transfers that the calls of a trace acting on claim [k]
    schedule: a repeated payout of [k] counts again, also when the status of
    [k] is Paid before and after it. *)
Fixpoint payouts_of (k : string) (s : Contract) (tr : list (Ctx * Call)) : nat :=
  match tr with
  | [] => 0
  | e :: tr' =>
    let s' := step s e in
    ((if bool_decide (call_claim s (snd e) = Some k)
      then length (promises s') - length (promises s) else 0)
     + payouts_of k s' tr')%nat
  end.

(** The two calls that store a new policy. *)
Definition is_creation (c : Call) : bool :=
  match c with
  | CreatePolicy _ _ _ _ _ _ | Create_policy _ _ _ _ _ _ _ _ => true
  | _ => false
  end.

(** The status changes a call can make to a policy that already exists. *)
Inductive status_moves : Call -> string -> string -> Prop :=
| moves_not c st : status_moves c st st
| moves_settle sender amount msg st :
    status_moves (FtOnTransfer sender amount msg) st active
| moves_payout pid rsn w st :
    status_moves (FileClaim pid rsn w) st claimed
| moves_admin_payout rcp amount cid st :
    status_moves (AdminTriggerPayout rcp amount cid) st claimed
| moves_process pid r cid ts :
    status_moves (ProcessPolicyClaims pid r cid ts) pending claimed
| moves_update pid new st :
    status_moves (UpdatePolicyStatus pid new) st new.

End Vocabulary.

(** ** Scenarios *)

(** The contract right after deployment, owned by its own account as in
    the deployment script. *)
Definition s_init : Contract := init contract_account.

(** A farmer's wheat policy at latitude 30, just created. *)
Definition s_pending : Contract :=
  run [(ctx_of farmer_account, create_wheat temperate)] s_init.

(** The farmer has settled the premium of 5,000,000. *)
Definition s_active : Contract :=
  run [settle farmer_account 5000000 "policy_1"] s_pending.

(** The same policy taken out by the contract's own account, the only caller
    for which [triggerPayout] lets the automatic payout through. *)
Definition s_own_active : Contract :=
  run [(ctx_of contract_account, create_wheat temperate);
       settle contract_account 5000000 "policy_1"] s_init.

(** ... and after its first claim was filed and paid. *)
Definition s_own_claimed : Contract :=
  run [(ctx_of contract_account, FileClaim "policy_1" "heat" extreme_weather)]
      s_own_active.

(** A policy entered by the automation for a station, then paid for. *)
Definition s_station : Contract :=
  run [(ctx_of contract_account,
        Create_policy farmer_account "wheat" 100000000 5000000 30
          "WXM_STATION_001" "2030-01-01" "2030-12-31");
       settle farmer_account 5000000 "policy_0"] s_init.

(** The sum of the required premiums of the policies that are Active. *)
Definition required_premiums_of_active (s : Contract) : Z :=
  map_fold (fun _ p acc => if String.eqb (status p) active then acc + premium p else acc)
    0 (policies s).

(** ** The effect of one call *)

Section Effects.

Variable JSON_policyId : string -> option string.
Variable Date_getTime : string -> option Z.

(** The observation records the two submission calls store. *)
Definition submitted_observation (ctx : Ctx) (station : string) (t r h w : Q)
    (cid : option string) : WeatherData :=
  {| stationId := station; timestamp := pretty (blockTimestamp ctx);
     temperature := t; rainfall := r; humidity := h; windSpeed := w;
     filecoinCid := cid |}.

Definition received_observation (station : string) (ts : Z) (cid : string)
    : WeatherData :=
  {| stationId := station; timestamp := pretty ts; temperature := 0;
     rainfall := 0; humidity := 0; windSpeed := 0; filecoinCid := Some cid |}.

Definition weather_key (station ts : string) : string := station +:+ "_" +:+ ts.

(** The policy [create_policy] stores: no location, no thresholds, and
    neither the station nor the rainfall threshold it was given. *)
Definition automation_policy (id farmer_id crop_type : string)
    (coverage_amount premium_amount : Z) (season_start season_end : string)
    : InsurancePolicy :=
  {| policyId := id; farmer := farmer_id; cropType := crop_type;
     farmLocation := {| lat := 0; lng := 0 |};
     coverageAmount := coverage_amount; premium := premium_amount;
     startDate := season_start; endDate := season_end;
     weatherParameters :=
       {| minTemp := 0; maxTemp := 0; minRainfall := 0; maxRainfall := 0 |};
     isActive := false; claimsPaid := 0; premiumPaid := 0; status := pending;
     weatherDataCids := []; payoutTrigger := None |}.

Definition policy_key (n : nat) : string := "policy_" +:+ pretty n.

Definition rainfall_trigger (r : Q) (cid ts : string) : PayoutTrigger :=
  {| triggeredAt := ts; actualRainfall := r; expectedRainfall := 30;
     weatherCid := cid |}.

(** [effect ctx s c s'] lists, call by call, the conditions under which a
    call goes through and the contract it leaves; a call that does not meet
    them leaves the contract as it is ([effect_none]). *)
Inductive effect (ctx : Ctx) (s : Contract) : Call -> Contract -> Prop :=
| effect_none c : effect ctx s c s
| effect_createPolicy crop loc cov sd ed wp :
    inputs_ok Date_getTime ctx crop loc cov sd ed wp = true ->
    effect ctx s (CreatePolicy crop loc cov sd ed wp)
      (with_totalPolicies
         (with_policies s
            (<[policy_key (totalPolicies s + 1)
               := new_policy ctx (policy_key (totalPolicies s + 1)) crop loc cov sd ed wp]>
               (policies s)))
         (totalPolicies s + 1))
| effect_settle sender amount msg id p :
    predecessorAccountId ctx = USDC_CONTRACT ->
    JSON_policyId msg = Some id ->
    policies s !! id = Some p ->
    farmer p = sender ->
    premium p <= amount ->
    effect ctx s (FtOnTransfer sender amount msg)
      (with_totalPremiumsCollected
         (with_policies s (<[id := policy_activate p amount]> (policies s)))
         (totalPremiumsCollected s + amount))
| effect_submit station t r h w cid :
    authorizedOracles s !! predecessorAccountId ctx = Some true ->
    effect ctx s (SubmitWeatherData station t r h w cid)
      (with_weatherDataStorage s
         (<[weather_key station (pretty (blockTimestamp ctx))
            := submitted_observation ctx station t r h w cid]>
            (weatherDataStorage s)))
| effect_fileClaim pid rsn w p paid :
    policies s !! pid = Some p ->
    farmer p = predecessorAccountId ctx ->
    isActive p = true ->
    paid = (temperature_breach w (weatherParameters p)
            || rainfall_breach w (weatherParameters p)) ->
    (paid = true -> predecessorAccountId ctx = currentAccountId ctx) ->
    effect ctx s (FileClaim pid rsn w) (after_fileClaim ctx s pid rsn w p paid)
| effect_triggerPayout rcp amt :
    predecessorAccountId ctx = currentAccountId ctx ->
    effect ctx s (TriggerPayout rcp amt)
      (with_promises s
         (promises s ++ [{| receiver_id := rcp; transfer_amount := amt |}]))
| effect_adminTriggerPayout rcp amt cid c :
    predecessorAccountId ctx = owner s ->
    predecessorAccountId ctx = currentAccountId ctx ->
    claims s !! cid = Some c ->
    claim_status c = ClaimApproved ->
    effect ctx s (AdminTriggerPayout rcp amt cid)
      (after_adminTriggerPayout s rcp amt cid c)
| effect_addOracle o :
    predecessorAccountId ctx = owner s ->
    effect ctx s (AddOracle o)
      (with_authorizedOracles s (<[o := true]> (authorizedOracles s)))
| effect_removeOracle o :
    predecessorAccountId ctx = owner s ->
    effect ctx s (RemoveOracle o)
      (with_authorizedOracles s (<[o := false]> (authorizedOracles s)))
| effect_receive station ts cid :
    authorizedOracles s !! predecessorAccountId ctx = Some true ->
    effect ctx s (ReceiveWeather station ts cid)
      (with_weatherDataStorage s
         (<[weather_key station (pretty ts) := received_observation station ts cid]>
            (weatherDataStorage s)))
| effect_create_policy f cr cov pr rt st ss se :
    effect ctx s (Create_policy f cr cov pr rt st ss se)
      (with_policies (with_totalPolicies s (totalPolicies s + 1))
         (<[policy_key (totalPolicies s)
            := automation_policy (policy_key (totalPolicies s)) f cr cov pr ss se]>
            (policies s)))
| effect_process pid r cid ts p :
    policies s !! pid = Some p ->
    status p = pending ->
    (r < 30)%Q ->
    effect ctx s (ProcessPolicyClaims pid r cid ts)
      (with_policies s
         (<[pid := policy_set_status p claimed (Some (rainfall_trigger r cid ts))]>
            (policies s)))
| effect_update pid new p :
    policies s !! pid = Some p ->
    effect ctx s (UpdatePolicyStatus pid new)
      (with_policies s
         (<[pid := policy_set_status p new (payoutTrigger p)]> (policies s))).

End Effects.


(** ** Vocabulary of the further properties *)

Definition sum_transfers (l : list Promise) : Z :=
  fold_right (fun x acc => transfer_amount x + acc) 0 l.

(** No claim waits between calls as Approved (or is ever Rejected). *)
Definition claims_settled (s : Contract) : Prop :=
  forall k c, claims s !! k = Some c ->
    claim_status c = ClaimPending \/ claim_status c = ClaimPaid.

(** Policy identifiers above the counter are unused. *)
Definition policies_fresh (s : Contract) : Prop :=
  forall n, (totalPolicies s < n)%nat -> policies s !! policy_key n = None.

(** A policy whose flag [isActive] is set has its premium paid in full. *)
Definition paid_up (s : Contract) : Prop :=
  forall k p, policies s !! k = Some p -> isActive p = true ->
    premium p <= premiumPaid p.

(** The terms of a policy that no call other than a creation rewrites. *)
Definition same_terms (p p' : InsurancePolicy) : Prop :=
  policyId p' = policyId p /\ farmer p' = farmer p /\ cropType p' = cropType p
  /\ farmLocation p' = farmLocation p /\ coverageAmount p' = coverageAmount p
  /\ premium p' = premium p /\ startDate p' = startDate p
  /\ endDate p' = endDate p /\ weatherParameters p' = weatherParameters p
  /\ weatherDataCids p' = weatherDataCids p
  /\ (isActive p = true -> isActive p' = true).

Definition is_triggerPayout (c : Call) : bool :=
  match c with
  | TriggerPayout _ _ => true
  | _ => false
  end.

(** [getContractStats]. *)
Record ContractStats := {
  stats_totalPolicies : nat;
  stats_totalClaims : nat;
  stats_totalPremiumsCollected : Z;
  stats_totalClaimsPaid : Z
}.

Definition getContractStats (s : Contract) : ContractStats :=
  {| stats_totalPolicies := totalPolicies s;
     stats_totalClaims := totalClaims s;
     stats_totalPremiumsCollected := totalPremiumsCollected s;
     stats_totalClaimsPaid := totalClaimsPaid s |}.


(** ** Further views *)

Section Views.

Variable LookupMap_entries :
  gmap string InsurancePolicy -> option (list (string * InsurancePolicy)).

Definition not_iterable {A} : M A := throw "TypeError: this.policies is not iterable".

(** The counting loops of [get_active_policies_count] and
    [get_paid_policies_count]. *)
Fixpoint count_status (st : string) (entries : list (string * InsurancePolicy))
    (count : nat) : nat :=
  match entries with
  | [] => count
  | (_, policy) :: rest =>
    if String.eqb (status policy) st then count_status st rest (count + 1)
    else count_status st rest count
  end.

Definition get_active_policies_count : M nat :=
  let! entries := gets (fun s => LookupMap_entries (policies s)) in
  match entries with
  | None => not_iterable
  | Some l => ret (count_status active l 0)
  end.

Definition get_paid_policies_count : M nat :=
  let! entries := gets (fun s => LookupMap_entries (policies s)) in
  match entries with
  | None => not_iterable
  | Some l => ret (count_status claimed l 0)
  end.

(** The summing loops of [get_total_coverage] and [get_total_payouts]. The
    accumulator [total] starts as the number [0], and [total += BigInt(...)]
    adds a BigInt to it, which JavaScript refuses with a TypeError: the loop
    gets past the policies of other statuses only. *)
Fixpoint total_status (st : string) (entries : list (string * InsurancePolicy))
    : M Z :=
  match entries with
  | [] => ret 0
  | (_, policy) :: rest =>
    if String.eqb (status policy) st
    then throw "TypeError: Cannot mix BigInt and other types, use explicit conversions"
    else total_status st rest
  end.

Definition get_total_coverage : M Z :=
  let! entries := gets (fun s => LookupMap_entries (policies s)) in
  match entries with
  | None => not_iterable
  | Some l => total_status active l
  end.

Definition get_total_payouts : M Z :=
  let! entries := gets (fun s => LookupMap_entries (policies s)) in
  match entries with
  | None => not_iterable
  | Some l => total_status claimed l
  end.

End Views.

(** [getWeatherData], with the numeric timestamp of its argument. *)
Definition getWeatherData (station : string) (ts : Z) (s : Contract)
    : option WeatherData :=
  weatherDataStorage s !! weather_key station (pretty ts).

(** Whether [get_policies] keeps a policy, once a non-empty station filter is
    out of the way. *)
Definition status_matches (status_ : option string) (p : InsurancePolicy) : bool :=
  match truthy_string status_ with
  | Some st => String.eqb (status p) st
  | None => true
  end.


(** Whether a character occurs in a string. *)
Fixpoint has_char (c : ascii) (s : string) : bool :=
  match s with
  | EmptyString => false
  | String a r => Ascii.eqb a c || has_char c r
  end.


(** The counters and the stores they count. *)
Definition counted (s : Contract) : Prop :=
  claims_fresh s /\ size (claims s) = totalClaims s
  /\ (size (policies s) <= totalPolicies s)%nat.


(** ** Amounts as text *)

(** JavaScript string operations used by the formatting code, on strings of
    single-byte characters. *)
Fixpoint replicate_char (n : nat) (c : ascii) : string :=
  match n with
  | O => EmptyString
  | S n' => String c (replicate_char n' c)
  end.

(** [s.padStart(n, c)] and [s.padEnd(n, c)] for a one-character pad. *)
Definition padStart (n : nat) (c : ascii) (s : string) : string :=
  replicate_char (n - String.length s) c +:+ s.

Definition padEnd (n : nat) (c : ascii) (s : string) : string :=
  s +:+ replicate_char (n - String.length s) c.

(** [s.slice(0, n)]. *)
Fixpoint slice0 (n : nat) (s : string) : string :=
  match n, s with
  | S n', String c r => String c (slice0 n' r)
  | _, _ => EmptyString
  end.

(** [s.replace(/0+$/, '')]: drops the trailing run of zeros. *)
Fixpoint strip_trailing_zeros (s : string) : string :=
  match s with
  | EmptyString => EmptyString
  | String c r =>
    let r' := strip_trailing_zeros r in
    if Ascii.eqb c "0" && String.eqb r' EmptyString then EmptyString
    else String c r'
  end.

(** [s.split('.')]: the pieces between the dots, at least one. *)
Fixpoint split_dot_go (cur : string) (s : string) : list string :=
  match s with
  | EmptyString => [String.rev cur]
  | String c r =>
    if Ascii.eqb c "." then String.rev cur :: split_dot_go EmptyString r
    else split_dot_go (String c cur) r
  end.

Definition split_dot (s : string) : list string := split_dot_go EmptyString s.

(** [x || d] on strings: the empty string is falsy. *)
Definition or_default (o : option string) (d : string) : string :=
  match o with
  | Some s => if String.eqb s EmptyString then d else s
  | None => d
  end.

(** The value of a decimal digit and of a string of decimal digits. *)
Definition digit_value (c : ascii) : option N :=
  let n := N_of_ascii c in
  if (48 <=? n)%N && (n <=? 57)%N then Some (n - 48)%N else None.

Fixpoint digits_value (acc : N) (s : string) : option N :=
  match s with
  | EmptyString => Some acc
  | String c r =>
    match digit_value c with
    | Some d => digits_value (10 * acc + d) r
    | None => None
    end
  end.

(** What [BigInt(s)] has to give on a non-empty string of decimal digits
    (leading zeros allowed). Nothing is asked of it on other strings. *)
Definition reads_decimal (BigInt : string -> option Z) : Prop :=
  forall s n, s <> EmptyString -> digits_value 0 s = Some n ->
    BigInt s = Some (Z.of_N n).

(** A reader of optionally signed decimal strings, the empty string reading
    as zero; enough of [BigInt] for the examples. *)
Definition BigInt_decimal (s : string) : option Z :=
  match s with
  | EmptyString => Some 0
  | String "-" r =>
    if String.eqb r EmptyString then None
    else option_map (fun n => - Z.of_N n) (digits_value 0 r)
  | _ => option_map Z.of_N (digits_value 0 s)
  end.

(** The private helpers of the contract: dollars with two decimals. *)
Definition formatUSDC (microUnits : Z) : string :=
  let units := microUnits in
  let dollars := Z.quot units 1000000 in
  let cents := Z.quot (Z.rem units 1000000) 10000 in
  pretty dollars +:+ "." +:+ padStart 2 "0" (pretty cents).

Section ParseUSDC.

Variable BigInt : string -> option Z.

Definition parseUSDC (dollarAmount : string) : option Z :=
  let parts := split_dot dollarAmount in
  match BigInt (or_default (parts !! 0%nat) "0") with
  | None => None
  | Some dollars =>
    match BigInt (slice0 6 (padEnd 6 "0" (or_default (parts !! 1%nat) "0"))) with
    | None => None
    | Some cents => Some (dollars * 1000000 + cents)
    end
  end.

End ParseUSDC.

(** The helpers exported by the client library ([lib/near-integration.ts]). *)
Module NearIntegration.

Definition formatUSDC (amount : Z) : string :=
  let usdcAmount := Z.quot amount 1000000 in
  let remainder := Z.rem amount 1000000 in
  if remainder =? 0 then pretty usdcAmount
  else
    let decimal := strip_trailing_zeros (padStart 6 "0" (pretty remainder)) in
    pretty usdcAmount +:+ "." +:+ decimal.

Section Parse.

Variable BigInt : string -> option Z.

(** [paddedDecimal || 0]: an empty string gives the number 0. *)
Definition parseUSDC (amount : string) : option Z :=
  let parts := split_dot amount in
  let whole := default EmptyString (parts !! 0%nat) in
  let decimal := default EmptyString (parts !! 1%nat) in
  let paddedDecimal := slice0 6 (padEnd 6 "0" decimal) in
  match BigInt whole with
  | None => None
  | Some w =>
    match (if String.eqb paddedDecimal EmptyString then Some 0
           else BigInt paddedDecimal) with
    | None => None
    | Some d => Some (w * 1000000 + d)
    end
  end.

End Parse.

End NearIntegration.


Fixpoint all_digits (s : string) : bool :=
  match s with
  | EmptyString => true
  | String c r => bool_decide (is_Some (digit_value c)) && all_digits r
  end.

(** ** Proof tactics *)

(** Unfolding of the monad and of the calls; [break_match] splits on the
    innermost scrutinee of the goal. *)
Ltac unfold_monad :=
  unfold discard, require_some, bind, ret, gets, modify, assert, throw in *.

Ltac break_inner x :=
  lazymatch x with
  | context [match ?y with _ => _ end] => break_inner y
  | _ => destruct x eqn:?
  end.

Ltac break_match :=
  match goal with
  | |- context [match ?x with _ => _ end] => break_inner x; simpl
  end.

Ltac unfold_calls :=
  unfold step, run_call; simpl;
  unfold ft_on_transfer, submitWeatherData,
    checkAutomaticClaims, receive_weather, updatePoliciesWithWeatherCid,
    triggerPayout, addOracle, removeOracle, create_policy, process_policy_claims,
    update_policy_status, automated_weather_check; unfold_monad; simpl.


(** Case analysis on the effect of a call, with the names used below. *)
Ltac effect_cases H :=
  destruct H as
    [ c'
    | crop' loc' cov' sd' ed' wp' Eok
    | sender' amount' msg' id' p' Ecaller Emsg Epol Efarmer Eamount
    | station' t' r' h' w' cid' Eauth
    | pid' rsn' w' p' paid' Epol Efarmer Eactive Epaid Eself
    | rcp' amt' Eself
    | rcp' amt' cid' cl' Eowner Eself Eclaim Estatus
    | o' Eowner
    | o' Eowner
    | station' ts' cid' Eauth
    | f' cr' cov' pr' rt' st' ss' se'
    | pid' r' cid' ts' p' Epol Estatus Erain
    | pid' new' p' Epol ].

(** ** Basic facts *)

Lemma ClaimStatus_eqb_spec a b : ClaimStatus_eqb a b = true <-> a = b.
Proof. destruct a, b; simpl; split; congruence. Qed.

Lemma Qleb_le x y : Qleb x y = true <-> (x <= y)%Q.
Proof. apply Qle_bool_iff. Qed.

Lemma Qltb_lt x y : Qltb x y = true <-> (x < y)%Q.
Proof.
  unfold Qltb. rewrite negb_true_iff. split; intros H.
  - apply Qnot_le_lt. intros Hle. apply Qle_bool_iff in Hle. congruence.
  - destruct (Qle_bool y x) eqn:E; [|reflexivity].
    apply Qle_bool_iff in E. exfalso. exact (Qlt_not_le _ _ H E).
Qed.

Lemma bind_Return {A B} (m : M A) (k : A -> M B) s a s' :
  m s = Return a s' -> bind m k s = k a s'.
Proof. unfold bind. intros ->. reflexivity. Qed.

Lemma bind_Panic {A B} (m : M A) (k : A -> M B) s msg :
  m s = Panic msg -> bind m k s = Panic msg.
Proof. unfold bind. intros ->. reflexivity. Qed.

Lemma is_authorized_true caller s :
  is_authorized caller s = true <-> authorizedOracles s !! caller = Some true.
Proof.
  unfold is_authorized.
  destruct (authorizedOracles s !! caller) as [[|]|]; split; congruence.
Qed.

(** ** Properties of the contract *)

Section Properties.

Variable JSON_policyId : string -> option string.
Variable Date_getTime : string -> option Z.
Variable LookupMap_entries :
  gmap string InsurancePolicy -> option (list (string * InsurancePolicy)).

Local Notation step := (step JSON_policyId Date_getTime).
Local Notation run_call := (run_call JSON_policyId Date_getTime).
Local Notation run_trace := (run_trace JSON_policyId Date_getTime).
Local Notation ft_on_transfer := (ft_on_transfer JSON_policyId).
Local Notation createPolicy := (createPolicy Date_getTime).
Local Notation validatePolicyInputs := (validatePolicyInputs Date_getTime).
Local Notation refused := (refused JSON_policyId).
Local Notation inputs_ok := (inputs_ok Date_getTime).

(** *** The oracle gate *)

(** C9. A caller whose registry flag is not [true] has both observation
    submissions, [submitWeatherData] and [receive_weather], rejected with an
    authorization failure, and the contract (so also the observation store)
    stays as it was; a caller whose flag is [true] gets the observation
    stored under its station-and-timestamp key. *)
Theorem oracle_gate (ctx : Ctx) (s : Contract) (station : string)
    (t r h w : Q) (cid : option string) (ts : Z) (cid' : string) :
  let caller := predecessorAccountId ctx in
  (authorizedOracles s !! caller <> Some true ->
     submitWeatherData ctx station t r h w cid s
       = Panic "assertion failed: Only authorized oracles can submit weather data"
     /\ receive_weather ctx station ts cid' s
       = Panic "assertion failed: Only authorized oracles can receive weather data"
     /\ step s (ctx, SubmitWeatherData station t r h w cid) = s
     /\ step s (ctx, ReceiveWeather station ts cid') = s)
  /\
  (authorizedOracles s !! caller = Some true ->
     (exists s1,
        submitWeatherData ctx station t r h w cid s = Return tt s1
        /\ weatherDataStorage s1 !! (station +:+ "_" +:+ pretty (blockTimestamp ctx))
           = Some {| stationId := station; timestamp := pretty (blockTimestamp ctx);
                     temperature := t; rainfall := r; humidity := h;
                     windSpeed := w; filecoinCid := cid |})
     /\
     (exists s2,
        receive_weather ctx station ts cid' s = Return tt s2
        /\ weatherDataStorage s2 !! (station +:+ "_" +:+ pretty ts)
           = Some {| stationId := station; timestamp := pretty ts;
                     temperature := 0; rainfall := 0; humidity := 0;
                     windSpeed := 0; filecoinCid := Some cid' |})).
Proof.
  intros caller. split.
  - intros Hno.
    assert (Hf : is_authorized caller s = false).
    { destruct (is_authorized caller s) eqn:E; [|reflexivity].
      apply is_authorized_true in E. contradiction. }
    unfold step, run_call, submitWeatherData, receive_weather. simpl.
    unfold_monad. fold caller. rewrite Hf. simpl. repeat split; reflexivity.
  - intros Hyes. apply is_authorized_true in Hyes.
    unfold submitWeatherData, receive_weather, checkAutomaticClaims,
      updatePoliciesWithWeatherCid.
    unfold_monad. fold caller. rewrite Hyes. simpl.
    split; eexists; (split; [reflexivity|]); simpl; apply lookup_insert_eq.
Qed.

(** *** The settlement callback *)

Lemma ft_on_transfer_accepts (ctx : Ctx) (s : Contract) (sender : string)
    (amount : Z) (msg id : string) (p : InsurancePolicy) :
  predecessorAccountId ctx = USDC_CONTRACT ->
  JSON_policyId msg = Some id ->
  policies s !! id = Some p ->
  farmer p = sender ->
  premium p <= amount ->
  ft_on_transfer ctx sender amount msg s
  = Return (amount - premium p)
      (with_totalPremiumsCollected
         (with_policies s (<[id := policy_activate p amount]> (policies s)))
         (totalPremiumsCollected s + amount)).
Proof.
  intros Hc Hm Hp Hf Ha. unfold ft_on_transfer. unfold_monad.
  rewrite Hc, Hm. simpl. rewrite Hp, Hf, String.eqb_refl. simpl.
  destruct (amount <? premium p) eqn:E; [apply Z.ltb_lt in E; lia|].
  reflexivity.
Qed.

(** C1, as the code has it. When the message does not yield a policy key,
    the policy does not exist, the payer is not the policy's owner, or the
    amount is strictly below the required premium, the callback returns the
    whole amount and leaves the contract untouched; when the caller is not
    the token contract the call aborts, again without any change. *)
Theorem ft_on_transfer_refunds_all (ctx : Ctx) (s : Contract) (sender : string)
    (amount : Z) (msg : string) :
  (predecessorAccountId ctx <> USDC_CONTRACT ->
     ft_on_transfer ctx sender amount msg s = Panic not_token_issuer_msg
     /\ step s (ctx, FtOnTransfer sender amount msg) = s)
  /\
  (predecessorAccountId ctx = USDC_CONTRACT ->
     refused s sender amount msg ->
     ft_on_transfer ctx sender amount msg s = Return amount s
     /\ step s (ctx, FtOnTransfer sender amount msg) = s).
Proof.
  split.
  - intros Hc. apply String.eqb_neq in Hc.
    unfold step, run_call, ft_on_transfer. simpl.
    unfold_monad. rewrite Hc. simpl. split; reflexivity.
  - intros Hc Hr.
    assert (H : ft_on_transfer ctx sender amount msg s = Return amount s).
    { unfold ft_on_transfer. unfold_monad. rewrite Hc. simpl.
      destruct Hr as [Hm | (id & Hm & [Hn | (p & Hp & Hbad)])]; rewrite Hm.
      - reflexivity.
      - rewrite Hn. reflexivity.
      - rewrite Hp. destruct Hbad as [Hf | Ha].
        + apply String.eqb_neq in Hf. rewrite Hf. reflexivity.
        + destruct (farmer p =? sender)%string; simpl; [|reflexivity].
          apply Z.ltb_lt in Ha. rewrite Ha. reflexivity. }
    split; [exact H|].
    unfold step, run_call. simpl. unfold discard.
    rewrite (bind_Return _ _ _ _ _ H). reflexivity.
Qed.

(** C10. A settlement that activates a policy with more than the required
    premium writes the whole transferred amount into [premiumPaid] and adds
    the whole amount to [totalPremiumsCollected], while the same call hands
    the positive excess back as refund: the statistic grows by more than the
    premium the policy required. *)
Theorem overpayment_recorded_in_full (ctx : Ctx) (s : Contract) (sender : string)
    (amount : Z) (msg id : string) (p : InsurancePolicy) :
  predecessorAccountId ctx = USDC_CONTRACT ->
  JSON_policyId msg = Some id ->
  policies s !! id = Some p ->
  farmer p = sender ->
  premium p < amount ->
  exists s',
    ft_on_transfer ctx sender amount msg s = Return (amount - premium p) s'
    /\ 0 < amount - premium p
    /\ (exists p', policies s' !! id = Some p'
          /\ premiumPaid p' = amount /\ status p' = active /\ isActive p' = true
          /\ premium p' = premium p)
    /\ totalPremiumsCollected s' = totalPremiumsCollected s + amount
    /\ totalPremiumsCollected s' - totalPremiumsCollected s > premium p.
Proof.
  intros Hc Hm Hp Hf Ha. eexists. split.
  - apply ft_on_transfer_accepts; eauto. lia.
  - split; [lia|]. split.
    + eexists. split; [simpl; apply lookup_insert_eq|]. simpl. auto.
    + simpl. lia.
Qed.

(** *** Validation and creation *)

Lemma validatePolicyInputs_spec ctx crop loc cov sd ed wp s :
  (inputs_ok ctx crop loc cov sd ed wp = true
   /\ validatePolicyInputs ctx crop loc cov sd ed wp s = Return tt s)
  \/ (inputs_ok ctx crop loc cov sd ed wp = false
      /\ exists m, validatePolicyInputs ctx crop loc cov sd ed wp s = Panic m).
Proof.
  unfold inputs_ok, validatePolicyInputs. unfold_monad.
  repeat match goal with
  | |- context [if ?b then Return tt s else _] =>
      destruct b eqn:?; simpl; [| right; split; [reflexivity | eauto]]
  end.
  left. split; reflexivity.
Qed.

Lemma createPolicy_spec ctx crop loc cov sd ed wp s :
  let id := "policy_" +:+ pretty (totalPolicies s + 1)%nat in
  (inputs_ok ctx crop loc cov sd ed wp = true
   /\ createPolicy ctx crop loc cov sd ed wp s
      = Return id
          (with_totalPolicies
             (with_policies s
                (<[id := new_policy ctx id crop loc cov sd ed wp]> (policies s)))
             (totalPolicies s + 1)))
  \/ (inputs_ok ctx crop loc cov sd ed wp = false
      /\ exists m, createPolicy ctx crop loc cov sd ed wp s = Panic m).
Proof.
  intros id. unfold createPolicy.
  destruct (validatePolicyInputs_spec ctx crop loc cov sd ed wp s)
    as [[Hok Hv] | [Hko [m Hv]]].
  - left. split; [exact Hok|].
    rewrite (bind_Return _ _ _ _ _ Hv). reflexivity.
  - right. split; [exact Hko|]. exists m.
    rewrite (bind_Panic _ _ _ _ Hv). reflexivity.
Qed.

(** *** Pricing *)

Lemma includes_validCrops l :
  includes validCrops l = true ->
  In l validCrops.
Proof.
  unfold includes. rewrite existsb_exists. intros (x & Hin & Heq).
  apply String.eqb_eq in Heq. subst. exact Hin.
Qed.

(** The rate in basis points is exactly base rate times crop multiplier times
    geographic multiplier: neither [Math.floor] loses anything on the tables. *)
Lemma premiumRate_product crop loc :
  includes validCrops (toLowerCase crop) = true ->
  (inject_Z (premiumRate crop loc)
   == inject_Z DEFAULT_PREMIUM_RATE * cropMultiplier crop
      * calculateGeographicalRisk loc)%Q.
Proof.
  intros Hin. apply includes_validCrops in Hin.
  unfold premiumRate, cropMultiplier, calculateGeographicalRisk.
  set (l := Qabs (lat loc)).
  simpl in Hin.
  repeat (destruct Hin as [<- | Hin]; [
    destruct (Qltb l 10); [vm_compute; reflexivity|];
    destruct (Qltb l (235 # 10)); [vm_compute; reflexivity|];
    destruct (Qltb l 35); [vm_compute; reflexivity|];
    destruct (Qltb l 50); vm_compute; reflexivity |]).
  contradiction.
Qed.

Lemma geo_temperate loc :
  (235 # 10 <= Qabs (lat loc))%Q -> (Qabs (lat loc) < 35)%Q ->
  calculateGeographicalRisk loc = 1%Q.
Proof.
  intros Hlo Hhi. unfold calculateGeographicalRisk.
  assert (H1 : Qltb (Qabs (lat loc)) 10 = false).
  { destruct (Qltb (Qabs (lat loc)) 10) eqn:E; [|reflexivity].
    apply Qltb_lt in E. exfalso.
    apply (Qlt_not_le _ _ E). eapply Qle_trans; [|exact Hlo]. discriminate. }
  assert (H2 : Qltb (Qabs (lat loc)) (235 # 10) = false).
  { destruct (Qltb (Qabs (lat loc)) (235 # 10)) eqn:E; [|reflexivity].
    apply Qltb_lt in E. exfalso. exact (Qlt_not_le _ _ E Hlo). }
  assert (H3 : Qltb (Qabs (lat loc)) 35 = true) by (apply Qltb_lt; exact Hhi).
  rewrite H1, H2, H3. reflexivity.
Qed.

Lemma wheat_temperate_premium loc :
  (235 # 10 <= Qabs (lat loc))%Q -> (Qabs (lat loc) < 35)%Q ->
  calculatePremium 100000000 "wheat" loc = 5000000.
Proof.
  intros Hlo Hhi. unfold calculatePremium, premiumRate.
  rewrite (geo_temperate loc Hlo Hhi). vm_compute. reflexivity.
Qed.

Lemma calculatePremium_max cov crop loc :
  calculatePremium cov crop loc
  = Z.max MIN_PREMIUM_USDC (Z.quot (cov * premiumRate crop loc) BASIS_POINTS).
Proof.
  unfold calculatePremium.
  destruct (_ <? _) eqn:E; [apply Z.ltb_lt in E | apply Z.ltb_ge in E]; lia.
Qed.

(** Pricing and settlement as the code has them (the part of C6 that holds
    at every input). A successful [createPolicy] stores a Pending
    policy with nothing paid, whose premium is [calculatePremium] of the
    coverage, crop and location alone: the coverage times a rate of exactly
    base rate x crop multiplier x geographic multiplier basis points, floored
    at the minimum premium. For wheat and a coverage of 100,000,000 this is
    5,000,000 when the latitude lies in the baseline band
    23.5 <= |lat| < 35, and settling exactly the premium activates the policy
    with [premiumPaid] equal to it and nothing refunded. *)
Theorem createPolicy_prices_and_settles (ctx ctx' : Ctx) (s s' : Contract)
    (crop : string) (loc : Location) (cov : Z) (sd ed : string)
    (wp : WeatherParameters) (id msg : string) :
  createPolicy ctx crop loc cov sd ed wp s = Return id s' ->
  predecessorAccountId ctx' = USDC_CONTRACT ->
  JSON_policyId msg = Some id ->
  exists p,
    policies s' !! id = Some p
    /\ status p = pending /\ premiumPaid p = 0 /\ isActive p = false
    /\ premium p = calculatePremium cov crop loc
    /\ premium p
       = Z.max MIN_PREMIUM_USDC (Z.quot (cov * premiumRate crop loc) BASIS_POINTS)
    /\ (inject_Z (premiumRate crop loc)
        == inject_Z DEFAULT_PREMIUM_RATE * cropMultiplier crop
           * calculateGeographicalRisk loc)%Q
    /\ (crop = "wheat" -> cov = 100000000 ->
        (235 # 10 <= Qabs (lat loc))%Q -> (Qabs (lat loc) < 35)%Q ->
        premium p = 5000000)
    /\ exists s'' p'',
         ft_on_transfer ctx' (predecessorAccountId ctx) (premium p) msg s'
           = Return 0 s''
         /\ policies s'' !! id = Some p''
         /\ status p'' = active /\ premiumPaid p'' = premium p.
Proof.
  intros Hcreate Hc Hm.
  destruct (createPolicy_spec ctx crop loc cov sd ed wp s)
    as [[Hok Hret] | [_ [m Hp]]]; [|congruence].
  rewrite Hret in Hcreate. injection Hcreate as <- <-.
  set (id := "policy_" +:+ pretty (totalPolicies s + 1)%nat) in *.
  exists (new_policy ctx id crop loc cov sd ed wp).
  assert (Hl : policies
                 (with_totalPolicies
                    (with_policies s
                       (<[id := new_policy ctx id crop loc cov sd ed wp]> (policies s)))
                    (totalPolicies s + 1)) !! id
               = Some (new_policy ctx id crop loc cov sd ed wp))
    by (simpl; apply lookup_insert_eq).
  split; [exact Hl|]. simpl.
  repeat split; try reflexivity.
  - apply calculatePremium_max.
  - apply premiumRate_product.
    unfold inputs_ok in Hok. repeat (apply andb_prop in Hok as [Hok ?]).
    assumption.
  - intros -> -> Hlo Hhi. apply wheat_temperate_premium; assumption.
  - eexists. eexists. split.
    + erewrite ft_on_transfer_accepts; eauto; simpl; [|lia].
      f_equal. lia.
    + simpl. split; [apply lookup_insert_eq|]. split; reflexivity.
Qed.

(** *** Filing and paying claims *)

(** The percentage is the larger of the two table entries, never their sum. *)
Lemma evaluateThresholds_spec w params :
  evaluateThresholds w params
  = (temperature_breach w params || rainfall_breach w params,
     if rainfall_breach w params then 60
     else if temperature_breach w params then 50 else 0).
Proof.
  unfold evaluateThresholds, temperature_breach, rainfall_breach.
  destruct (Qltb (temperature w) (minTemp params) || _);
    destruct (Qltb (rainfall w) (minRainfall params) || _); reflexivity.
Qed.

Lemma fileClaim_spec ctx s pid rsn w :
  match policies s !! pid with
  | None => exists m, fileClaim ctx pid rsn w s = Panic m
  | Some p =>
    if negb (String.eqb (farmer p) (predecessorAccountId ctx)) then
      fileClaim ctx pid rsn w s
      = Panic "assertion failed: Only policy owner can file claims"
    else if negb (isActive p) then
      fileClaim ctx pid rsn w s = Panic "assertion failed: Policy is not active"
    else if negb (fst (evaluateThresholds w (weatherParameters p))) then
      fileClaim ctx pid rsn w s
      = Return (claim_key (totalClaims s + 1)) (after_fileClaim ctx s pid rsn w p false)
    else if String.eqb (predecessorAccountId ctx) (currentAccountId ctx) then
      fileClaim ctx pid rsn w s
      = Return (claim_key (totalClaims s + 1)) (after_fileClaim ctx s pid rsn w p true)
    else
      fileClaim ctx pid rsn w s
      = Panic "assertion failed: Only contract can trigger payouts"
  end.
Proof.
  unfold fileClaim, after_fileClaim, payout_amount. unfold_monad.
  destruct (policies s !! pid) as [p|] eqn:Hp; simpl; [|eauto].
  destruct (farmer p =? predecessorAccountId ctx)%string eqn:Hf; simpl;
    [|reflexivity].
  destruct (isActive p) eqn:Ha; simpl; [|reflexivity].
  unfold processClaimAutomatically. unfold_monad. simpl.
  rewrite lookup_insert_eq. simpl. rewrite Hp.
  destruct (evaluateThresholds w (weatherParameters p)) as [[|] pct]; simpl;
    [|reflexivity].
  unfold executePayout, triggerPayout. unfold_monad. simpl.
  rewrite lookup_insert_eq. simpl.
  destruct (predecessorAccountId ctx =? currentAccountId ctx)%string; simpl;
    [|reflexivity].
  rewrite Hp. reflexivity.
Qed.

(** What a claim filed by the owner of a policy whose flag [isActive] is set
    leads to: without a breach the claim is stored Pending with amount 0 and
    nothing else changes; with a breach the call goes through only for the
    contract's own account, and then the claim is Paid with the larger of the
    breached percentages applied to the coverage and the policy is Claimed. *)
Lemma fileClaim_evaluation ctx s pid rsn w p :
  policies s !! pid = Some p ->
  farmer p = predecessorAccountId ctx ->
  isActive p = true ->
  let key := claim_key (totalClaims s + 1) in
  let pct := if rainfall_breach w (weatherParameters p) then 60
             else if temperature_breach w (weatherParameters p) then 50 else 0 in
  if negb (temperature_breach w (weatherParameters p)
           || rainfall_breach w (weatherParameters p)) then
    exists s', fileClaim ctx pid rsn w s = Return key s'
      /\ claims s' !! key
         = Some (filed_claim ctx (totalClaims s + 1) pid rsn w 0 ClaimPending)
      /\ policies s' = policies s /\ promises s' = promises s
      /\ totalClaimsPaid s' = totalClaimsPaid s
  else if String.eqb (predecessorAccountId ctx) (currentAccountId ctx) then
    exists s' p', fileClaim ctx pid rsn w s = Return key s'
      /\ claims s' !! key
         = Some (filed_claim ctx (totalClaims s + 1) pid rsn w
                   (Z.quot (coverageAmount p * pct) 100) ClaimPaid)
      /\ policies s' !! pid = Some p' /\ status p' = claimed
      /\ claimsPaid p' = claimsPaid p + Z.quot (coverageAmount p * pct) 100
  else
    fileClaim ctx pid rsn w s
    = Panic "assertion failed: Only contract can trigger payouts".
Proof.
  intros Hp Hf Ha key pct.
  pose proof (fileClaim_spec ctx s pid rsn w) as H.
  rewrite Hp, Hf, String.eqb_refl, Ha in H. simpl in H.
  assert (Hamt : payout_amount p w = Z.quot (coverageAmount p * pct) 100)
    by (unfold payout_amount; rewrite evaluateThresholds_spec; reflexivity).
  rewrite evaluateThresholds_spec in H. simpl in H.
  destruct (temperature_breach w (weatherParameters p)
            || rainfall_breach w (weatherParameters p)); simpl in *.
  - destruct (predecessorAccountId ctx =? currentAccountId ctx)%string;
      [|exact H].
    eexists. eexists. split; [exact H|]. unfold after_fileClaim. simpl.
    rewrite Hamt. split; [apply lookup_insert_eq|].
    split; [apply lookup_insert_eq|]. split; reflexivity.
  - eexists. split; [exact H|]. unfold after_fileClaim. simpl.
    split; [apply lookup_insert_eq|]. repeat split; reflexivity.
Qed.

Lemma adminTriggerPayout_spec ctx s rcp amount cid :
  (exists m, adminTriggerPayout ctx rcp amount cid s = Panic m)
  \/ (exists c, claims s !! cid = Some c /\ claim_status c = ClaimApproved
        /\ adminTriggerPayout ctx rcp amount cid s
           = Return tt (after_adminTriggerPayout s rcp amount cid c)).
Proof.
  unfold adminTriggerPayout, triggerPayout, after_adminTriggerPayout. unfold_monad.
  destruct (predecessorAccountId ctx =? owner s)%string; simpl; [|eauto].
  destruct (claims s !! cid) as [c|] eqn:Hc; simpl; [|eauto].
  destruct (ClaimStatus_eqb (claim_status c) ClaimApproved) eqn:Hst; simpl; [|eauto].
  apply ClaimStatus_eqb_spec in Hst.
  destruct (predecessorAccountId ctx =? currentAccountId ctx)%string; simpl; [|eauto].
  right. exists c. split; [reflexivity|]. split; [exact Hst|].
  destruct (policies s !! claim_policyId c); reflexivity.
Qed.

(** *** One call at a time *)

(** [step] on a creation, through [createPolicy_spec]. *)
Lemma step_createPolicy s ctx crop loc cov sd ed wp :
  let id := "policy_" +:+ pretty (totalPolicies s + 1)%nat in
  step s (ctx, CreatePolicy crop loc cov sd ed wp) = s
  \/ step s (ctx, CreatePolicy crop loc cov sd ed wp)
     = with_totalPolicies
         (with_policies s
            (<[id := new_policy ctx id crop loc cov sd ed wp]> (policies s)))
         (totalPolicies s + 1).
Proof.
  intros id. unfold step, run_call, discard. simpl.
  destruct (createPolicy_spec ctx crop loc cov sd ed wp s)
    as [[_ H] | [_ [m H]]].
  - right. rewrite (bind_Return _ _ _ _ _ H). reflexivity.
  - left. rewrite (bind_Panic _ _ _ _ H). reflexivity.
Qed.

Lemma step_claims_frame s ctx c :
  touches_claims c = false ->
  claims (step s (ctx, c)) = claims s
  /\ totalClaims (step s (ctx, c)) = totalClaims s.
Proof.
  destruct c as [crop loc cov sd ed wp | sender amount msg | st t r h w cid | pid rsn wd
    | rcp amt | rcp amt clid | o | o | st ts cid | f cr cov pr rt st ss se
    | pid r cid ts | pid new | st];
    simpl; intros H; try discriminate; clear H;
    try (destruct (step_createPolicy s ctx crop loc cov sd ed wp) as [-> | ->];
         split; reflexivity);
    unfold_calls; repeat break_match; simpl; split; reflexivity.
Qed.

Lemma step_fileClaim s ctx pid rsn w :
  step s (ctx, FileClaim pid rsn w) = s
  \/ exists p paid,
       policies s !! pid = Some p /\ isActive p = true
       /\ farmer p = predecessorAccountId ctx
       /\ step s (ctx, FileClaim pid rsn w) = after_fileClaim ctx s pid rsn w p paid.
Proof.
  unfold step, run_call, discard. simpl.
  pose proof (fileClaim_spec ctx s pid rsn w) as H.
  destruct (policies s !! pid) as [p|] eqn:Hp.
  - destruct (farmer p =? predecessorAccountId ctx)%string eqn:Hf; simpl in H;
      [|left; rewrite (bind_Panic _ _ _ _ H); reflexivity].
    apply String.eqb_eq in Hf.
    destruct (isActive p) eqn:Ha; simpl in H;
      [|left; rewrite (bind_Panic _ _ _ _ H); reflexivity].
    destruct (fst (evaluateThresholds w (weatherParameters p))); simpl in H.
    + destruct (predecessorAccountId ctx =? currentAccountId ctx)%string.
      * right. exists p, true. rewrite (bind_Return _ _ _ _ _ H). auto.
      * left. rewrite (bind_Panic _ _ _ _ H). reflexivity.
    + right. exists p, false. rewrite (bind_Return _ _ _ _ _ H). auto.
  - destruct H as [m H]. left. rewrite (bind_Panic _ _ _ _ H). reflexivity.
Qed.

Lemma step_adminTriggerPayout s ctx rcp amount cid :
  step s (ctx, AdminTriggerPayout rcp amount cid) = s
  \/ exists c, claims s !! cid = Some c /\ claim_status c = ClaimApproved
       /\ step s (ctx, AdminTriggerPayout rcp amount cid)
          = after_adminTriggerPayout s rcp amount cid c.
Proof.
  unfold step, run_call. simpl.
  destruct (adminTriggerPayout_spec ctx s rcp amount cid)
    as [[m H] | (c & Hc & Hst & H)]; rewrite H; eauto.
Qed.

(** *** Claims along a trace *)

Lemma claim_key_inj n m : claim_key n = claim_key m -> n = m.
Proof.
  unfold claim_key. intros H. apply String.app_inj in H.
  apply pretty_nat_inj in H. exact H.
Qed.

Lemma claims_after_fileClaim ctx s pid rsn w p paid k :
  k <> claim_key (totalClaims s + 1) ->
  claims (after_fileClaim ctx s pid rsn w p paid) !! k = claims s !! k.
Proof.
  intros Hk. unfold after_fileClaim. destruct paid; simpl;
    repeat (rewrite lookup_insert_ne by congruence); reflexivity.
Qed.

Lemma step_claims_fresh s e : claims_fresh s -> claims_fresh (step s e).
Proof.
  intros Hfresh. destruct e as [ctx c].
  destruct (touches_claims c) eqn:Ht.
  - destruct c as [crop loc cov sd ed wp | sender amount msg | st t r h w cid | pid rsn wd
    | rcp amt | rcp amt clid | o | o | st ts cid | f cr cov pr rt st ss se
    | pid r cid ts | pid new | st];
      try discriminate.
    + destruct (step_fileClaim s ctx pid rsn wd)
        as [-> | (p & paid & _ & _ & _ & ->)]; [exact Hfresh|].
      intros n Hn.
      assert (Hn' : (totalClaims s + 1 < n)%nat)
        by (unfold after_fileClaim in Hn; destruct paid; simpl in Hn; exact Hn).
      rewrite claims_after_fileClaim.
      * apply Hfresh. lia.
      * intros Heq. apply claim_key_inj in Heq. lia.
    + destruct (step_adminTriggerPayout s ctx rcp amt clid)
        as [-> | (cl & Hc & _ & ->)]; [exact Hfresh|].
      intros n Hn. simpl in *.
      rewrite lookup_insert_ne; [apply Hfresh; exact Hn|].
      intros ->. rewrite (Hfresh n Hn) in Hc. discriminate.
  - destruct (step_claims_frame s ctx c Ht) as [Hc Hn].
    intros n Hlt. rewrite Hc. apply Hfresh. rewrite <- Hn. exact Hlt.
Qed.

Lemma step_claim_evolves s e k cl :
  claims_fresh s ->
  claims s !! k = Some cl ->
  exists cl', claims (step s e) !! k = Some cl' /\ claim_evolves cl cl'.
Proof.
  intros Hfresh Hk. destruct e as [ctx c].
  destruct (touches_claims c) eqn:Ht.
  - destruct c as [crop loc cov sd ed wp | sender amount msg | st t r h w cid | pid rsn wd
    | rcp amt | rcp amt clid | o | o | st ts cid | f cr cov pr rt st ss se
    | pid r cid ts | pid new | st];
      try discriminate.
    + destruct (step_fileClaim s ctx pid rsn wd)
        as [-> | (p & paid & _ & _ & _ & ->)];
        [exists cl; split; [exact Hk | left; reflexivity]|].
      exists cl. split; [|left; reflexivity].
      rewrite claims_after_fileClaim; [exact Hk|].
      intros ->. rewrite Hfresh in Hk by lia. discriminate.
    + destruct (step_adminTriggerPayout s ctx rcp amt clid)
        as [-> | (c & Hc & Hst & ->)];
        [exists cl; split; [exact Hk | left; reflexivity]|].
      simpl. destruct (decide (clid = k)) as [-> | Hne].
      * rewrite lookup_insert_eq. rewrite Hk in Hc. injection Hc as <-.
        eexists. split; [reflexivity|]. right. split; [exact Hst | reflexivity].
      * rewrite lookup_insert_ne by exact Hne.
        exists cl. split; [exact Hk | left; reflexivity].
  - destruct (step_claims_frame s ctx c Ht) as [Hc _].
    exists cl. rewrite Hc. split; [exact Hk | left; reflexivity].
Qed.

Lemma init_claims_fresh o : claims_fresh (init o).
Proof. intros n _. reflexivity. Qed.

Lemma run_trace_claims_fresh tr s : claims_fresh s -> claims_fresh (run_trace tr s).
Proof.
  revert s. induction tr as [|e tr IH]; intros s Hs; [exact Hs|].
  simpl. apply IH. apply step_claims_fresh. exact Hs.
Qed.

Lemma paid_is_kept s e k cl :
  claims_fresh s ->
  claims s !! k = Some cl -> claim_status cl = ClaimPaid ->
  claims (step s e) !! k = Some cl.
Proof.
  intros Hs Hk Hpaid.
  destruct (step_claim_evolves s e k cl Hs Hk) as (cl' & Hk' & [-> | [Hst _]]).
  - exact Hk'.
  - congruence.
Qed.

Lemma paid_transitions_after_paid tr s k :
  claims_fresh s -> is_paid s k = true ->
  paid_transitions JSON_policyId Date_getTime k s tr = 0%nat.
Proof.
  revert s. induction tr as [|e tr IH]; intros s Hs Hp; [reflexivity|].
  simpl. rewrite Hp. simpl.
  apply IH; [apply step_claims_fresh; exact Hs|].
  unfold is_paid in *. destruct (claims s !! k) as [cl|] eqn:Hk; [|discriminate].
  apply ClaimStatus_eqb_spec in Hp.
  rewrite (paid_is_kept s e k cl Hs Hk Hp).
  apply ClaimStatus_eqb_spec. exact Hp.
Qed.

Lemma run_trace_claim_fixed tr s k cl :
  claims_fresh s ->
  claims s !! k = Some cl ->
  exists cl', claims (run_trace tr s) !! k = Some cl'
    /\ claimAmount cl' = claimAmount cl
    /\ (claim_status cl = ClaimPaid -> cl' = cl).
Proof.
  revert s cl. induction tr as [|e tr IH]; intros s cl Hs Hk.
  - exists cl. auto.
  - simpl.
    destruct (step_claim_evolves s e k cl Hs Hk) as (c1 & Hk1 & Hev).
    destruct (IH (step s e) c1 (step_claims_fresh s e Hs) Hk1)
      as (c2 & Hk2 & Hamt & Hkeep).
    exists c2. split; [exact Hk2|].
    destruct Hev as [-> | [Hst ->]].
    + auto.
    + split; [rewrite Hamt; reflexivity|]. intros Hp. congruence.
Qed.

(** A call acting on claim [k] schedules at most one transfer, and only
    while moving [k] into status Paid from another status (or from absence). *)
Lemma step_payout_is_transition s e k :
  claims_fresh s ->
  call_claim s (snd e) = Some k ->
  (length (promises (step s e)) - length (promises s)
   <= if negb (is_paid s k) && is_paid (step s e) k then 1 else 0)%nat.
Proof.
  intros Hfresh Hcall. destruct e as [ctx c].
  destruct c as [crop loc cov sd ed wp | sender amount msg | st t r h w cid | pid rsn wd
    | rcp amt | rcp amt clid | o | o | st ts cid | f cr cov pr rt st ss se
    | pid r cid ts | pid new | st];
    try discriminate; simpl in Hcall; injection Hcall as <-.
  - destruct (step_fileClaim s ctx pid rsn wd)
      as [-> | (p & paid & _ & _ & _ & ->)]; [lia|].
    assert (Hno : is_paid s (claim_key (totalClaims s + 1)) = false)
      by (unfold is_paid; rewrite Hfresh by lia; reflexivity).
    rewrite Hno. unfold after_fileClaim, is_paid. destruct paid; simpl.
    + rewrite lookup_insert_eq. simpl. rewrite length_app. simpl. lia.
    + lia.
  - destruct (step_adminTriggerPayout s ctx rcp amt clid)
      as [-> | (cl & Hc & Hst & ->)]; [lia|].
    unfold is_paid. rewrite Hc, Hst. simpl.
    rewrite lookup_insert_eq. simpl. rewrite length_app. simpl. lia.
Qed.

Lemma payouts_le_transitions tr s k :
  claims_fresh s ->
  (payouts_of JSON_policyId Date_getTime k s tr
   <= paid_transitions JSON_policyId Date_getTime k s tr)%nat.
Proof.
  revert s. induction tr as [|e tr IH]; intros s Hs; simpl; [lia|].
  specialize (IH (step s e) (step_claims_fresh s e Hs)).
  case_bool_decide as Hcall.
  - pose proof (step_payout_is_transition s e k Hs Hcall). lia.
  - lia.
Qed.

Lemma paid_transitions_le_1 tr s k :
  claims_fresh s -> (paid_transitions JSON_policyId Date_getTime k s tr <= 1)%nat.
Proof.
  revert s. induction tr as [|e tr IH]; intros s Hs; simpl; [lia|].
  destruct (negb (is_paid s k) && is_paid (step s e) k) eqn:E.
  - apply andb_prop in E as [_ Hp].
    rewrite (paid_transitions_after_paid tr (step s e) k
               (step_claims_fresh s e Hs) Hp). lia.
  - specialize (IH (step s e) (step_claims_fresh s e Hs)). lia.
Qed.

(** The guards of the two payout paths: on a stored claim that is not
    Approved, [adminTriggerPayout] aborts and [executePayout] returns at
    once, both leaving the contract as it is. *)
Lemma payout_needs_approved ctx s k cl rcp amt :
  claims s !! k = Some cl -> claim_status cl <> ClaimApproved ->
  (exists m, adminTriggerPayout ctx rcp amt k s = Panic m)
  /\ step s (ctx, AdminTriggerPayout rcp amt k) = s
  /\ executePayout ctx k s = Return tt s.
Proof.
  intros Hk Hst.
  assert (Hp : exists m, adminTriggerPayout ctx rcp amt k s = Panic m).
  { destruct (adminTriggerPayout_spec ctx s rcp amt k)
      as [Hp | (c & Hc & Hst' & _)]; [exact Hp|].
    rewrite Hk in Hc. injection Hc as <-. contradiction. }
  split; [exact Hp|]. split.
  - destruct Hp as [m Hp]. unfold step, run_call. simpl. rewrite Hp. reflexivity.
  - unfold executePayout. unfold_monad. rewrite Hk.
    destruct (ClaimStatus_eqb (claim_status cl) ClaimApproved) eqn:E;
      [apply ClaimStatus_eqb_spec in E; contradiction | reflexivity].
Qed.

(** C3. Along every sequence of contract calls, started in a state whose
    claim identifiers above the counter are unused (as in every state the
    contract can reach), a claim enters status Paid at most once; and the
    [claimAmount] of a stored claim, in particular of an Approved or Paid
    one, is the same after any number of further calls, a Paid claim being
    left entirely as it is. The payout itself happens at most once too: the
    calls acting on the claim schedule at most one transfer for it over the
    whole sequence, and none once it is Paid. This rests on the guards of
    the payout paths: on a stored claim that is not Approved (so on a Paid
    one) [adminTriggerPayout] aborts and [executePayout] returns without
    effect, the contract, its transfers and [totalClaimsPaid] unchanged. *)
Theorem claim_paid_at_most_once (s : Contract) (k : string)
    (tr : list (Ctx * Call)) :
  claims_fresh s ->
  (paid_transitions JSON_policyId Date_getTime k s tr <= 1)%nat
  /\ (forall cl, claims s !! k = Some cl ->
       exists cl', claims (run_trace tr s) !! k = Some cl'
         /\ claimAmount cl' = claimAmount cl
         /\ (claim_status cl = ClaimPaid -> cl' = cl))
  /\ (payouts_of JSON_policyId Date_getTime k s tr <= 1)%nat
  /\ (is_paid s k = true ->
      payouts_of JSON_policyId Date_getTime k s tr = 0%nat)
  /\ (forall cl, claims s !! k = Some cl -> claim_status cl <> ClaimApproved ->
       forall ctx rcp amt,
         (exists m, adminTriggerPayout ctx rcp amt k s = Panic m)
         /\ step s (ctx, AdminTriggerPayout rcp amt k) = s
         /\ executePayout ctx k s = Return tt s).
Proof.
  intros Hs.
  pose proof (paid_transitions_le_1 tr s k Hs) as Hone.
  pose proof (payouts_le_transitions tr s k Hs) as Hle.
  split; [exact Hone|]. split.
  { intros cl Hk. apply run_trace_claim_fixed; assumption. }
  split; [lia|]. split.
  - intros Hp. rewrite (paid_transitions_after_paid tr s k Hs Hp) in Hle. lia.
  - intros cl Hk Hst ctx rcp amt. apply payout_needs_approved with cl; assumption.
Qed.

(** *** The life cycle of a policy *)

Lemma lookup_insert_status (m : gmap string InsurancePolicy) id k p q c :
  m !! k = Some p ->
  (id = k -> status_moves c (status p) (status q)) ->
  exists p', <[id := q]> m !! k = Some p' /\ status_moves c (status p) (status p').
Proof.
  intros Hk Hmove. destruct (decide (id = k)) as [-> | Hne].
  - exists q. rewrite lookup_insert_eq. auto.
  - exists p. rewrite lookup_insert_ne by exact Hne. split; [exact Hk|constructor].
Qed.

Lemma step_policy_status ctx c s k p :
  is_creation c = false ->
  policies s !! k = Some p ->
  exists p', policies (step s (ctx, c)) !! k = Some p'
    /\ status_moves c (status p) (status p').
Proof.
  intros Hc Hk.
  assert (Hsame : exists p', policies s !! k = Some p'
                    /\ status_moves c (status p) (status p'))
    by (exists p; split; [exact Hk | constructor]).
  destruct c as [crop loc cov sd ed wp | sender amount msg | st t r h w cid | pid rsn wd
    | rcp amt | rcp amt clid | o | o | st ts cid | f cr cov pr rt st ss se
    | pid r cid ts | pid new | st];
    try discriminate; clear Hc.
  - (* ft_on_transfer *)
    unfold_calls; repeat break_match; simpl; try exact Hsame.
    apply lookup_insert_status; [exact Hk|]. intros _. constructor.
  - unfold_calls; repeat break_match; simpl; exact Hsame.
  - (* fileClaim *)
    destruct (step_fileClaim s ctx pid rsn wd)
      as [-> | (q & paid & Hq & _ & _ & ->)]; [exact Hsame|].
    unfold after_fileClaim. destruct paid; simpl; [|exact Hsame].
    apply lookup_insert_status; [exact Hk|]. intros _. constructor.
  - unfold_calls; repeat break_match; simpl; exact Hsame.
  - (* adminTriggerPayout *)
    destruct (step_adminTriggerPayout s ctx rcp amt clid)
      as [-> | (cl & _ & _ & ->)]; [exact Hsame|].
    simpl. destruct (policies s !! claim_policyId cl); [|exact Hsame].
    apply lookup_insert_status; [exact Hk|]. intros _. constructor.
  - unfold_calls; repeat break_match; simpl; exact Hsame.
  - unfold_calls; repeat break_match; simpl; exact Hsame.
  - unfold_calls; repeat break_match; simpl; exact Hsame.
  - (* process_policy_claims *)
    unfold_calls; repeat break_match; simpl; try exact Hsame.
    apply lookup_insert_status; [exact Hk|]. intros ->.
    match goal with
    | H : negb (status ?q =? pending)%string = false |- _ =>
        apply negb_false_iff, String.eqb_eq in H;
        assert (p = q) by congruence; subst q; rewrite H
    end.
    constructor.
  - (* update_policy_status *)
    unfold_calls; repeat break_match; simpl; try exact Hsame.
    apply lookup_insert_status; [exact Hk|]. intros _. constructor.
  - unfold_calls; exact Hsame.
Qed.

(** C2, as the code has it. A call other than a policy creation changes the
    status of an existing policy in these ways only: [ft_on_transfer] sets it
    to Active, a payout ([fileClaim] or [adminTriggerPayout]) sets it to
    Claimed, [process_policy_claims] takes a Pending policy straight to
    Claimed, and [update_policy_status] sets whatever status it is given.
    The last two really happen: [update_policy_status] stores any requested
    status, Pending included, and [process_policy_claims] with a rainfall
    below 30 makes a Pending policy Claimed without its ever being Active. *)
Theorem status_changes_by_call (ctx : Ctx) (s : Contract) (c : Call)
    (k : string) (p : InsurancePolicy) :
  is_creation c = false ->
  policies s !! k = Some p ->
  (exists p', policies (step s (ctx, c)) !! k = Some p'
     /\ status_moves c (status p) (status p'))
  /\ (forall new, exists p',
        policies (step s (ctx, UpdatePolicyStatus k new)) !! k = Some p'
        /\ status p' = new)
  /\ (status p = pending ->
      forall r cid ts, (r < 30)%Q ->
      exists p',
        policies (step s (ctx, ProcessPolicyClaims k r cid ts)) !! k = Some p'
        /\ status p' = claimed).
Proof.
  intros Hc Hk. split; [apply step_policy_status; assumption|]. split.
  - intros new. unfold_calls. rewrite Hk. simpl.
    eexists. split; [apply lookup_insert_eq | reflexivity].
  - intros Hst r cid ts Hr. unfold_calls. rewrite Hk, Hst. simpl.
    assert (Hle : Qleb 30 r = false).
    { destruct (Qleb 30 r) eqn:E; [|reflexivity].
      apply Qleb_le in E. exfalso. exact (Qlt_not_le _ _ Hr E). }
    rewrite Hle. simpl. eexists. split; [apply lookup_insert_eq | reflexivity].
Qed.

(** *** The station query *)

Lemma get_policies_loop_station maxResults station st status_ entries acc :
  truthy_string station = Some st ->
  get_policies_loop maxResults station status_ entries acc = acc.
Proof.
  intros Hst. revert acc. induction entries as [|[id p] rest IH]; intros acc;
    simpl; [reflexivity|].
  destruct (maxResults <=? length acc)%nat; [reflexivity|].
  rewrite Hst. simpl. apply IH.
Qed.

(** C8, what the code does instead. With a non-empty station identifier the
    query never returns a policy: no policy carries a station, so the station
    filter skips every entry, whatever the stored policies, the status filter
    and the limit are (and the call fails outright where the collection
    cannot be iterated). *)
Theorem get_policies_by_station_finds_nothing (s : Contract) (station : string)
    (status_ : option string) (limit : option nat) :
  station <> EmptyString ->
  get_policies LookupMap_entries (Some station) status_ limit s
  = match LookupMap_entries (policies s) with
    | Some _ => Return [] s
    | None => Panic "TypeError: this.policies is not iterable"
    end.
Proof.
  intros Hne. unfold get_policies. unfold_monad.
  destruct (LookupMap_entries (policies s)) as [l|]; [|reflexivity].
  erewrite get_policies_loop_station; [reflexivity|].
  simpl. apply String.eqb_neq in Hne. rewrite Hne. reflexivity.
Qed.

End Properties.

(** ** Further properties of the contract *)

Section CallEffects.

Variable JSON_policyId : string -> option string.
Variable Date_getTime : string -> option Z.

Local Notation step := (step JSON_policyId Date_getTime).
Local Notation run_trace := (run_trace JSON_policyId Date_getTime).
Local Notation effect := (effect JSON_policyId Date_getTime).

(** *** Every call, case by case *)

Lemma Qltb_false_le x y : Qltb x y = false -> (y <= x)%Q.
Proof.
  unfold Qltb. rewrite negb_false_iff. apply Qle_bool_iff.
Qed.

Lemma Qleb_false_lt x y : Qleb x y = false -> (y < x)%Q.
Proof.
  intros H. apply Qnot_le_lt. intros Hle. apply Qleb_le in Hle. congruence.
Qed.

(** Whatever a call does to the contract is one of the effects listed. *)
Lemma step_effect ctx s c : effect ctx s c (step s (ctx, c)).
Proof.
  destruct c as [crop loc cov sd ed wp | sender amount msg | st t r h w cid | pid rsn wd
    | rcp amt | rcp amt clid | o | o | st ts cid | f cr cov pr rt st ss se
    | pid r cid ts | pid new | st].
  - unfold step, run_call, discard. simpl.
    destruct (createPolicy_spec Date_getTime ctx crop loc cov sd ed wp s)
      as [[Hok H] | [_ [m H]]].
    + rewrite (bind_Return _ _ _ _ _ H). simpl. apply effect_createPolicy. exact Hok.
    + rewrite (bind_Panic _ _ _ _ H). constructor.
  - unfold_calls.
    destruct (predecessorAccountId ctx =? USDC_CONTRACT)%string eqn:Hc; simpl;
      [|constructor].
    apply String.eqb_eq in Hc.
    destruct (JSON_policyId msg) as [id|] eqn:Hm; simpl; [|constructor].
    destruct (policies s !! id) as [p|] eqn:Hp; simpl; [|constructor].
    destruct (farmer p =? sender)%string eqn:Hf; simpl; [|constructor].
    apply String.eqb_eq in Hf.
    destruct (amount <? premium p) eqn:Ha; simpl; [constructor|].
    apply Z.ltb_ge in Ha. eapply effect_settle; eauto.
  - unfold_calls. destruct (is_authorized (predecessorAccountId ctx) s) eqn:Ha;
      simpl; [|constructor].
    apply is_authorized_true in Ha. apply effect_submit. exact Ha.
  - unfold step, run_call, discard. simpl.
    pose proof (fileClaim_spec ctx s pid rsn wd) as H.
    destruct (policies s !! pid) as [p|] eqn:Hp;
      [|destruct H as [m H]; rewrite (bind_Panic _ _ _ _ H); constructor].
    destruct (farmer p =? predecessorAccountId ctx)%string eqn:Hf; cbn [negb] in H;
      [|rewrite (bind_Panic _ _ _ _ H); constructor].
    apply String.eqb_eq in Hf.
    destruct (isActive p) eqn:Hact; cbn [negb] in H;
      [|rewrite (bind_Panic _ _ _ _ H); constructor].
    rewrite evaluateThresholds_spec in H. cbn [fst] in H.
    destruct (temperature_breach wd (weatherParameters p)
              || rainfall_breach wd (weatherParameters p)) eqn:Hb; cbn [negb] in H.
    + destruct (predecessorAccountId ctx =? currentAccountId ctx)%string eqn:Hself;
        [|rewrite (bind_Panic _ _ _ _ H); constructor].
      apply String.eqb_eq in Hself.
      rewrite (bind_Return _ _ _ _ _ H). cbn [ret].
      apply effect_fileClaim; auto.
    + rewrite (bind_Return _ _ _ _ _ H). cbn [ret].
      apply effect_fileClaim; auto. discriminate.
  - unfold_calls.
    destruct (predecessorAccountId ctx =? currentAccountId ctx)%string eqn:Hself;
      simpl; [|constructor].
    apply String.eqb_eq in Hself. apply effect_triggerPayout. exact Hself.
  - unfold step, run_call, adminTriggerPayout, triggerPayout.
    unfold_monad. cbn [fst snd].
    destruct (predecessorAccountId ctx =? owner s)%string eqn:Ho; cbn iota;
      [|constructor].
    apply String.eqb_eq in Ho.
    destruct (claims s !! clid) as [c|] eqn:Hc; cbn iota; [|constructor].
    destruct (ClaimStatus_eqb (claim_status c) ClaimApproved) eqn:Hst; cbn iota;
      [|constructor].
    apply ClaimStatus_eqb_spec in Hst.
    destruct (predecessorAccountId ctx =? currentAccountId ctx)%string eqn:Hself;
      cbn iota; [|constructor].
    apply String.eqb_eq in Hself.
    assert (Heq : forall X,
      X = after_adminTriggerPayout s rcp amt clid c ->
      effect ctx s (AdminTriggerPayout rcp amt clid) X)
      by (intros X ->; apply effect_adminTriggerPayout; assumption).
    apply Heq. unfold after_adminTriggerPayout. simpl.
    destruct (policies s !! claim_policyId c); reflexivity.
  - unfold_calls.
    destruct (predecessorAccountId ctx =? owner s)%string eqn:Ho; simpl;
      [|constructor].
    apply String.eqb_eq in Ho. apply effect_addOracle. exact Ho.
  - unfold_calls.
    destruct (predecessorAccountId ctx =? owner s)%string eqn:Ho; simpl;
      [|constructor].
    apply String.eqb_eq in Ho. apply effect_removeOracle. exact Ho.
  - unfold_calls. destruct (is_authorized (predecessorAccountId ctx) s) eqn:Ha;
      simpl; [|constructor].
    apply is_authorized_true in Ha. apply effect_receive. exact Ha.
  - unfold_calls. apply effect_create_policy.
  - unfold_calls.
    destruct (policies s !! pid) as [p|] eqn:Hp; simpl; [|constructor].
    destruct (status p =? pending)%string eqn:Hst; simpl; [|constructor].
    apply String.eqb_eq in Hst.
    destruct (Qleb 30 r) eqn:Hr; simpl; [constructor|].
    apply Qleb_false_lt in Hr. eapply effect_process; eauto.
  - unfold_calls.
    destruct (policies s !! pid) as [p|] eqn:Hp; simpl; [|constructor].
    apply effect_update. exact Hp.
  - unfold_calls. constructor.
Qed.
End CallEffects.


Section Registry.

Variable JSON_policyId : string -> option string.
Variable Date_getTime : string -> option Z.

Local Notation step := (step JSON_policyId Date_getTime).
Local Notation run_trace := (run_trace JSON_policyId Date_getTime).
Local Notation effect := (effect JSON_policyId Date_getTime).
Local Notation step_effect := (step_effect JSON_policyId Date_getTime).

(** *** Owner and oracle registry *)

Lemma step_owner s e : owner (step s e) = owner s.
Proof.
  destruct e as [ctx c].
  effect_cases (step_effect ctx s c); try reflexivity.
  unfold after_fileClaim. destruct paid'; reflexivity.
Qed.

(** X1. The owner recorded at initialisation is never replaced: after any
    sequence of calls, by anyone, it is the same account. *)
Theorem owner_never_changes (tr : list (Ctx * Call)) (s : Contract) :
  owner (run_trace tr s) = owner s.
Proof.
  revert s. induction tr as [|e tr IH]; intros s; [reflexivity|].
  simpl. rewrite IH. apply step_owner.
Qed.

Lemma step_registry s ctx c :
  predecessorAccountId ctx <> owner s ->
  authorizedOracles (step s (ctx, c)) = authorizedOracles s.
Proof.
  intros Hno. effect_cases (step_effect ctx s c); try reflexivity; try contradiction.
  unfold after_fileClaim. destruct paid'; reflexivity.
Qed.

(** X2. No sequence of calls made by accounts other than the owner changes
    the oracle registry. *)
Theorem registry_changes_only_by_owner (tr : list (Ctx * Call)) (s : Contract) :
  Forall (fun e => predecessorAccountId (fst e) <> owner s) tr ->
  authorizedOracles (run_trace tr s) = authorizedOracles s.
Proof.
  revert s. induction tr as [|[ctx c] tr IH]; intros s Hall; [reflexivity|].
  inversion Hall as [|? ? Hhd Htl]; subst. simpl in *.
  rewrite IH.
  - apply step_registry. exact Hhd.
  - rewrite step_owner. exact Htl.
Qed.

(** X3. Called by the owner, [addOracle] authorizes exactly the named account
    and [removeOracle] revokes exactly the named account, every other
    account keeping its standing; right after [init] the only authorized
    account is weather-oracle.testnet. *)
Theorem oracle_add_remove (ctx : Ctx) (s : Contract) (o o' ow : string) :
  predecessorAccountId ctx = owner s ->
  is_authorized o' (step s (ctx, AddOracle o))
    = (if decide (o' = o) then true else is_authorized o' s)
  /\ is_authorized o' (step s (ctx, RemoveOracle o))
    = (if decide (o' = o) then false else is_authorized o' s)
  /\ (is_authorized o' (init ow) = true <-> o' = "weather-oracle.testnet").
Proof.
  intros Ho. apply String.eqb_eq in Ho.
  split; [|split].
  - unfold_calls. rewrite Ho. simpl. unfold is_authorized. simpl.
    destruct (decide (o' = o)) as [-> | Hne].
    + rewrite lookup_insert_eq. reflexivity.
    + rewrite lookup_insert_ne by congruence. reflexivity.
  - unfold_calls. rewrite Ho. simpl. unfold is_authorized. simpl.
    destruct (decide (o' = o)) as [-> | Hne].
    + rewrite lookup_insert_eq. reflexivity.
    + rewrite lookup_insert_ne by congruence. reflexivity.
  - unfold is_authorized, init. simpl.
    destruct (decide (o' = "weather-oracle.testnet")) as [-> | Hne].
    + rewrite lookup_insert_eq. split; reflexivity.
    + rewrite lookup_insert_ne by congruence. rewrite lookup_empty.
      split; [discriminate | contradiction].
Qed.

(** *** Scheduled transfers *)

Lemma step_promises s ctx c :
  predecessorAccountId ctx <> currentAccountId ctx ->
  promises (step s (ctx, c)) = promises s.
Proof.
  intros Hno. effect_cases (step_effect ctx s c); try reflexivity; try contradiction.
  unfold after_fileClaim. destruct paid'; [|reflexivity].
  exfalso. apply Hno. apply Eself. reflexivity.
Qed.

(** X4. A token transfer is scheduled only in calls made by the contract's
    own account: whatever a farmer, an oracle or the owner (where it is
    another account) calls, no payout leaves the contract. *)
Theorem transfers_only_in_own_calls (ctx : Ctx) (s : Contract) (c : Call) :
  predecessorAccountId ctx <> currentAccountId ctx ->
  promises (step s (ctx, c)) = promises s
  /\ totalClaimsPaid (step s (ctx, c)) = totalClaimsPaid s.
Proof.
  intros Hno. split; [apply step_promises; exact Hno|].
  effect_cases (step_effect ctx s c); try reflexivity; try contradiction.
  unfold after_fileClaim. destruct paid'; [|reflexivity].
  exfalso. apply Hno. apply Eself. reflexivity.
Qed.

Lemma sum_transfers_app l x :
  sum_transfers (l ++ [x]) = sum_transfers l + transfer_amount x.
Proof.
  unfold sum_transfers. induction l as [|y l IH]; simpl; [lia|].
  rewrite IH. lia.
Qed.

Lemma step_accounting s ctx c :
  is_triggerPayout c = false ->
  sum_transfers (promises (step s (ctx, c))) - totalClaimsPaid (step s (ctx, c))
  = sum_transfers (promises s) - totalClaimsPaid s.
Proof.
  intros Hc. effect_cases (step_effect ctx s c); try reflexivity; try discriminate.
  - unfold after_fileClaim. destruct paid'; simpl; [|reflexivity].
    rewrite sum_transfers_app. simpl. lia.
  - simpl. rewrite sum_transfers_app. simpl. lia.
Qed.

(** X5. Along every sequence of calls that does not call [triggerPayout]
    directly, the amounts of the scheduled transfers and the statistic
    [totalClaimsPaid] grow by the same total: starting from [init] they are
    equal. *)
Theorem payouts_are_accounted (tr : list (Ctx * Call)) (s : Contract) :
  Forall (fun e => is_triggerPayout (snd e) = false) tr ->
  sum_transfers (promises (run_trace tr s)) - totalClaimsPaid (run_trace tr s)
  = sum_transfers (promises s) - totalClaimsPaid s.
Proof.
  revert s. induction tr as [|[ctx c] tr IH]; intros s Hall; [reflexivity|].
  inversion Hall as [|? ? Hhd Htl]; subst. simpl in *.
  rewrite IH by exact Htl. apply step_accounting. exact Hhd.
Qed.

End Registry.


Section Reachable.

Variable JSON_policyId : string -> option string.
Variable Date_getTime : string -> option Z.

Local Notation step := (step JSON_policyId Date_getTime).
Local Notation run_trace := (run_trace JSON_policyId Date_getTime).
Local Notation effect := (effect JSON_policyId Date_getTime).
Local Notation step_effect := (step_effect JSON_policyId Date_getTime).
Local Notation createPolicy := (createPolicy Date_getTime).

(** *** Invariants of the reachable states *)

(** An invariant that holds after [init] and is kept by every call holds
    after every sequence of calls. *)
Lemma run_trace_invariant (P : Contract -> Prop) :
  (forall s e, P s -> P (step s e)) ->
  forall tr s, P s -> P (run_trace tr s).
Proof.
  intros Hstep tr. induction tr as [|e tr IH]; intros s Hs; [exact Hs|].
  simpl. apply IH, Hstep, Hs.
Qed.

Lemma step_claims_settled s e : claims_settled s -> claims_settled (step s e).
Proof.
  intros Hs. destruct e as [ctx c].
  effect_cases (step_effect ctx s c); try exact Hs.
  - intros k c Hk. unfold after_fileClaim in Hk.
    clear Epaid Eself. destruct paid'; simpl in Hk.
    + destruct (decide (claim_key (totalClaims s + 1) = k)) as [<- | Hne].
      * rewrite lookup_insert_eq in Hk. injection Hk as <-. right. reflexivity.
      * repeat (rewrite lookup_insert_ne in Hk by exact Hne). eapply Hs; eauto.
    + destruct (decide (claim_key (totalClaims s + 1) = k)) as [<- | Hne].
      * rewrite lookup_insert_eq in Hk. injection Hk as <-. left. reflexivity.
      * rewrite lookup_insert_ne in Hk by exact Hne. eapply Hs; eauto.
  - intros k c' Hk. simpl in Hk.
    destruct (decide (cid' = k)) as [<- | Hne].
    + rewrite lookup_insert_eq in Hk. injection Hk as <-. right. reflexivity.
    + rewrite lookup_insert_ne in Hk by exact Hne. eapply Hs; eauto.
Qed.

Lemma init_claims_settled o : claims_settled (init o).
Proof. intros k c Hk. simpl in Hk. rewrite lookup_empty in Hk. discriminate. Qed.

(** X6. In no state that the contract reaches from [init] does
    [adminTriggerPayout] go through, whoever calls it and for whatever
    claim: a claim is Approved only inside the [fileClaim] call that pays it
    at once, so the manual path never finds an Approved claim. *)
Theorem adminTriggerPayout_never_applies (tr : list (Ctx * Call)) (ow : string)
    (ctx : Ctx) (rcp : string) (amt : Z) (cid : string) :
  exists m, adminTriggerPayout ctx rcp amt cid (run_trace tr (init ow)) = Panic m.
Proof.
  assert (Hs : claims_settled (run_trace tr (init ow)))
    by (apply run_trace_invariant;
        [apply step_claims_settled | apply init_claims_settled]).
  destruct (adminTriggerPayout_spec ctx (run_trace tr (init ow)) rcp amt cid)
    as [Epol | (c & Hc & Hst & _)]; [exact Epol|].
  destruct (Hs cid c Hc) as [H | H]; congruence.
Qed.

Lemma policy_key_inj n m : policy_key n = policy_key m -> n = m.
Proof.
  unfold policy_key. intros H. apply String.app_inj in H.
  apply pretty_nat_inj in H. exact H.
Qed.

Lemma step_policies_fresh s e : policies_fresh s -> policies_fresh (step s e).
Proof.
  intros Hs. destruct e as [ctx c].
  effect_cases (step_effect ctx s c); try exact Hs; intros n Hn; simpl in *.
  - rewrite lookup_insert_ne; [apply Hs; lia|].
    intros Heq. apply policy_key_inj in Heq. lia.
  - rewrite lookup_insert_ne; [apply Hs; exact Hn|].
    intros ->. rewrite (Hs n Hn) in Epol. discriminate.
  - unfold after_fileClaim in *. clear Epaid Eself.
    destruct paid'; simpl in *; [|apply Hs; exact Hn].
    rewrite lookup_insert_ne; [apply Hs; exact Hn|].
    intros ->. rewrite (Hs n Hn) in Epol. discriminate.
  - destruct (policies s !! claim_policyId cl') as [q|] eqn:Hq;
      [|apply Hs; exact Hn].
    rewrite lookup_insert_ne; [apply Hs; exact Hn|].
    intros Heq. rewrite Heq in Hq. rewrite (Hs n Hn) in Hq. discriminate.
  - rewrite lookup_insert_ne; [apply Hs; lia|].
    intros Heq. apply policy_key_inj in Heq. lia.
  - rewrite lookup_insert_ne; [apply Hs; exact Hn|].
    intros ->. rewrite (Hs n Hn) in Epol. discriminate.
  - rewrite lookup_insert_ne; [apply Hs; exact Hn|].
    intros ->. rewrite (Hs n Hn) in Epol. discriminate.
Qed.

Lemma init_policies_fresh o : policies_fresh (init o).
Proof. intros n _. reflexivity. Qed.

(** X7. In every state reached from [init], a successful [createPolicy]
    stores its policy under an identifier that was unused, raises the
    counter by one and leaves every other policy as it was. *)
Theorem createPolicy_adds_a_new_policy (tr : list (Ctx * Call)) (ow : string)
    (ctx : Ctx) (crop : string) (loc : Location) (cov : Z) (sd ed : string)
    (wp : WeatherParameters) (id : string) (s' : Contract) :
  let s := run_trace tr (init ow) in
  createPolicy ctx crop loc cov sd ed wp s = Return id s' ->
  policies s !! id = None
  /\ policies s' !! id = Some (new_policy ctx id crop loc cov sd ed wp)
  /\ totalPolicies s' = (totalPolicies s + 1)%nat
  /\ forall k, k <> id -> policies s' !! k = policies s !! k.
Proof.
  intros s Hret.
  assert (Hs : policies_fresh s)
    by (apply run_trace_invariant;
        [apply step_policies_fresh | apply init_policies_fresh]).
  destruct (createPolicy_spec Date_getTime ctx crop loc cov sd ed wp s)
    as [[_ H] | [_ [m H]]]; [|congruence].
  rewrite H in Hret. injection Hret as <- <-.
  split; [apply (Hs (totalPolicies s + 1)%nat); lia|].
  split; [simpl; apply lookup_insert_eq|].
  split; [reflexivity|].
  intros k Hk. simpl. apply lookup_insert_ne. congruence.
Qed.

(** X8. The two creation calls share identifiers: right after a successful
    [createPolicy], [create_policy] returns the very identifier just issued
    and replaces the new policy by its own, while the counter has moved by
    two. *)
Theorem create_policy_overwrites_createPolicy (ctx ctx' : Ctx) (s s1 : Contract)
    (crop : string) (loc : Location) (cov : Z) (sd ed : string)
    (wp : WeatherParameters) (id : string)
    (f cr : string) (cov' pr : Z) (rt : Q) (st ss se : string) :
  createPolicy ctx crop loc cov sd ed wp s = Return id s1 ->
  exists s2,
    create_policy ctx' f cr cov' pr rt st ss se s1 = Return id s2
    /\ policies s1 !! id = Some (new_policy ctx id crop loc cov sd ed wp)
    /\ policies s2 !! id = Some (automation_policy id f cr cov' pr ss se)
    /\ totalPolicies s2 = (totalPolicies s + 2)%nat.
Proof.
  intros Hret.
  destruct (createPolicy_spec Date_getTime ctx crop loc cov sd ed wp s)
    as [[_ H] | [_ [m H]]]; [|congruence].
  rewrite H in Hret. injection Hret as <- <-.
  eexists. split; [unfold create_policy; unfold_monad; simpl; reflexivity|].
  split; [simpl; apply lookup_insert_eq|].
  split; [simpl; apply lookup_insert_eq|].
  simpl. lia.
Qed.

End Reachable.


Section Records.

Variable JSON_policyId : string -> option string.
Variable Date_getTime : string -> option Z.

Local Notation step := (step JSON_policyId Date_getTime).
Local Notation run_trace := (run_trace JSON_policyId Date_getTime).
Local Notation effect := (effect JSON_policyId Date_getTime).
Local Notation step_effect := (step_effect JSON_policyId Date_getTime).
Local Notation run_trace_invariant := (run_trace_invariant JSON_policyId Date_getTime).
Local Notation createPolicy := (createPolicy Date_getTime).

(** *** Stored records *)

Lemma step_keeps_records s e :
  (forall k, is_Some (policies s !! k) -> is_Some (policies (step s e) !! k))
  /\ (forall k, is_Some (claims s !! k) -> is_Some (claims (step s e) !! k))
  /\ (forall k, is_Some (weatherDataStorage s !! k) ->
        is_Some (weatherDataStorage (step s e) !! k)).
Proof.
  destruct e as [ctx c].
  effect_cases (step_effect ctx s c);
    try (unfold after_fileClaim; clear Epaid Eself; destruct paid');
    simpl; repeat split; intros k Hk; try exact Hk;
    try (destruct (policies s !! claim_policyId cl'); [|exact Hk]);
    repeat (apply lookup_insert_is_Some'; right); exact Hk.
Qed.

(** X9. Nothing is ever deleted: a policy, a claim or a weather observation
    that is stored stays stored, under the same key, after any sequence of
    calls (its contents may be replaced). *)
Theorem records_are_never_deleted (tr : list (Ctx * Call)) (s : Contract) :
  (forall k, is_Some (policies s !! k) -> is_Some (policies (run_trace tr s) !! k))
  /\ (forall k, is_Some (claims s !! k) -> is_Some (claims (run_trace tr s) !! k))
  /\ (forall k, is_Some (weatherDataStorage s !! k) ->
        is_Some (weatherDataStorage (run_trace tr s) !! k)).
Proof.
  revert s. induction tr as [|e tr IH]; intros s; [auto|].
  simpl. destruct (IH (step s e)) as (H1 & H2 & H3).
  destruct (step_keeps_records s e) as (G1 & G2 & G3).
  repeat split; intros k Hk; auto.
Qed.

Lemma same_terms_refl p : same_terms p p.
Proof. unfold same_terms. repeat split; auto. Qed.

Lemma same_terms_trans p q r : same_terms p q -> same_terms q r -> same_terms p r.
Proof.
  unfold same_terms. intros H1 H2.
  destruct H1 as (?&?&?&?&?&?&?&?&?&?&?), H2 as (?&?&?&?&?&?&?&?&?&?&?).
  repeat split; try congruence. auto.
Qed.

Lemma lookup_insert_terms (m : gmap string InsurancePolicy) id k p q :
  m !! k = Some p ->
  (forall p0, m !! id = Some p0 -> same_terms p0 q) ->
  exists p', <[id := q]> m !! k = Some p' /\ same_terms p p'.
Proof.
  intros Hk Hq. destruct (decide (id = k)) as [-> | Hne].
  - exists q. rewrite lookup_insert_eq. split; [reflexivity|]. apply Hq, Hk.
  - exists p. rewrite lookup_insert_ne by exact Hne.
    split; [exact Hk | apply same_terms_refl].
Qed.

Lemma step_same_terms s ctx c k p :
  is_creation c = false ->
  policies s !! k = Some p ->
  exists p', policies (step s (ctx, c)) !! k = Some p' /\ same_terms p p'.
Proof.
  intros Hc Hk.
  assert (Hsame : exists p', policies s !! k = Some p' /\ same_terms p p')
    by (exists p; split; [exact Hk | apply same_terms_refl]).
  effect_cases (step_effect ctx s c); try discriminate; try exact Hsame; simpl.
  - apply lookup_insert_terms; [exact Hk|].
    intros p0 Hp0. rewrite Epol in Hp0. injection Hp0 as <-.
    unfold same_terms. simpl. repeat split; auto.
  - unfold after_fileClaim. clear Epaid Eself. destruct paid'; simpl; [|exact Hsame].
    apply lookup_insert_terms; [exact Hk|].
    intros p0 Hp0. rewrite Epol in Hp0. injection Hp0 as <-.
    unfold same_terms. simpl. repeat split; auto.
  - destruct (policies s !! claim_policyId cl') as [q|] eqn:Hq; [|exact Hsame].
    apply lookup_insert_terms; [exact Hk|].
    intros p0 Hp0. rewrite Hq in Hp0. injection Hp0 as <-.
    unfold same_terms. simpl. repeat split; auto.
  - apply lookup_insert_terms; [exact Hk|].
    intros p0 Hp0. rewrite Epol in Hp0. injection Hp0 as <-.
    unfold same_terms. simpl. repeat split; auto.
  - apply lookup_insert_terms; [exact Hk|].
    intros p0 Hp0. rewrite Epol in Hp0. injection Hp0 as <-.
    unfold same_terms. simpl. repeat split; auto.
Qed.

(** X10. Short of a creation call, no sequence of calls rewrites the terms of
    a policy: identifier, farmer, crop, location, coverage, premium, dates,
    thresholds and data references stay as created, and the flag [isActive],
    once set, is never cleared. *)
Theorem policy_terms_are_fixed (tr : list (Ctx * Call)) (s : Contract)
    (k : string) (p : InsurancePolicy) :
  Forall (fun e => is_creation (snd e) = false) tr ->
  policies s !! k = Some p ->
  exists p', policies (run_trace tr s) !! k = Some p' /\ same_terms p p'.
Proof.
  revert s p. induction tr as [|[ctx c] tr IH]; intros s p Hall Hk.
  - exists p. split; [exact Hk | apply same_terms_refl].
  - inversion Hall as [|? ? Hhd Htl]; subst. simpl in *.
    destruct (step_same_terms s ctx c k p Hhd Hk) as (p1 & Hk1 & Ht1).
    destruct (IH _ p1 Htl Hk1) as (p2 & Hk2 & Ht2).
    exists p2. split; [exact Hk2 | eapply same_terms_trans; eauto].
Qed.

Lemma insert_paid_up (m : gmap string InsurancePolicy) id q :
  (forall k p, m !! k = Some p -> isActive p = true -> premium p <= premiumPaid p) ->
  (isActive q = true -> premium q <= premiumPaid q) ->
  forall k p, <[id := q]> m !! k = Some p -> isActive p = true ->
    premium p <= premiumPaid p.
Proof.
  intros Hm Hq k p Hk. destruct (decide (id = k)) as [-> | Hne].
  - rewrite lookup_insert_eq in Hk. injection Hk as <-. exact Hq.
  - rewrite lookup_insert_ne in Hk by exact Hne. eapply Hm; eauto.
Qed.

Lemma step_paid_up s e : paid_up s -> paid_up (step s e).
Proof.
  intros Hs. destruct e as [ctx c].
  effect_cases (step_effect ctx s c); try exact Hs; unfold paid_up; simpl.
  - apply insert_paid_up; [exact Hs|]. simpl. discriminate.
  - apply insert_paid_up; [exact Hs|]. simpl. intros _. exact Eamount.
  - unfold after_fileClaim. clear Epaid Eself. destruct paid'; simpl; [|exact Hs].
    apply insert_paid_up; [exact Hs|]. simpl. apply (Hs pid' p' Epol).
  - destruct (policies s !! claim_policyId cl') as [q|] eqn:Hq; [|exact Hs].
    apply insert_paid_up; [exact Hs|]. simpl. apply (Hs _ q Hq).
  - apply insert_paid_up; [exact Hs|]. simpl. discriminate.
  - apply insert_paid_up; [exact Hs|]. simpl. apply (Hs pid' p' Epol).
  - apply insert_paid_up; [exact Hs|]. simpl. apply (Hs pid' p' Epol).
Qed.

Lemma init_paid_up o : paid_up (init o).
Proof. intros k p Hk. simpl in Hk. rewrite lookup_empty in Hk. discriminate. Qed.

(** X11. In every state reached from [init], [fileClaim] accepts a claim
    only from the farmer of a policy whose premium has been paid in full:
    the flag it checks is set by nothing but a sufficient settlement. *)
Theorem claims_need_a_paid_premium (tr : list (Ctx * Call)) (ow : string)
    (ctx : Ctx) (pid rsn : string) (w : WeatherData) (id : string)
    (s' : Contract) :
  let s := run_trace tr (init ow) in
  fileClaim ctx pid rsn w s = Return id s' ->
  exists p, policies s !! pid = Some p
    /\ farmer p = predecessorAccountId ctx
    /\ premium p <= premiumPaid p.
Proof.
  intros s Hret.
  assert (Hs : paid_up s)
    by (apply run_trace_invariant; [apply step_paid_up | apply init_paid_up]).
  pose proof (fileClaim_spec ctx s pid rsn w) as H.
  destruct (policies s !! pid) as [p|] eqn:Epol;
    [|destruct H as [m H]; congruence].
  destruct (farmer p =? predecessorAccountId ctx)%string eqn:Hf; cbn [negb] in H;
    [|congruence].
  apply String.eqb_eq in Hf.
  destruct (isActive p) eqn:Hact; cbn [negb] in H; [|congruence].
  exists p. split; [reflexivity|]. split; [exact Hf|]. apply (Hs pid p Epol Hact).
Qed.

End Records.


Section Statistics.

Variable JSON_policyId : string -> option string.
Variable Date_getTime : string -> option Z.

Local Notation step := (step JSON_policyId Date_getTime).
Local Notation run_trace := (run_trace JSON_policyId Date_getTime).
Local Notation effect := (effect JSON_policyId Date_getTime).
Local Notation step_effect := (step_effect JSON_policyId Date_getTime).
Local Notation run_trace_invariant := (run_trace_invariant JSON_policyId Date_getTime).
Local Notation createPolicy := (createPolicy Date_getTime).
Local Notation inputs_ok := (inputs_ok Date_getTime).

(** *** Statistics *)

Lemma size_insert_le {A} (m : gmap string A) k v :
  (size (<[k := v]> m) <= S (size m))%nat.
Proof. rewrite map_size_insert. destruct (m !! k); simpl; lia. Qed.

Lemma step_counted s e : counted s -> counted (step s e).
Proof.
  intros (Hf & Hc & Hn).
  split; [apply step_claims_fresh; exact Hf|].
  destruct e as [ctx c].
  effect_cases (step_effect ctx s c); try (split; assumption); simpl.
  - split; [exact Hc|]. pose proof (size_insert_le (policies s)
      (policy_key (totalPolicies s + 1))
      (new_policy ctx (policy_key (totalPolicies s + 1)) crop' loc' cov' sd' ed' wp')).
    lia.
  - split; [exact Hc|]. rewrite map_size_insert_Some; [exact Hn|]. eauto.
  - unfold after_fileClaim. clear Epaid Eself. destruct paid'; simpl.
    + rewrite !insert_insert_eq.
      rewrite map_size_insert_None by (apply Hf; lia).
      split; [lia|]. rewrite map_size_insert_Some; [exact Hn|]. eauto.
    + rewrite map_size_insert_None by (apply Hf; lia). split; [lia | exact Hn].
  - split.
    + rewrite map_size_insert_Some; [exact Hc|]. eauto.
    + destruct (policies s !! claim_policyId cl') eqn:Hq; [|exact Hn].
      rewrite map_size_insert_Some; [exact Hn|]. eauto.
  - split; [exact Hc|]. pose proof (size_insert_le (policies s)
      (policy_key (totalPolicies s))
      (automation_policy (policy_key (totalPolicies s)) f' cr' cov' pr' ss' se')).
    lia.
  - split; [exact Hc|]. rewrite map_size_insert_Some; [exact Hn|]. eauto.
  - split; [exact Hc|]. rewrite map_size_insert_Some; [exact Hn|]. eauto.
Qed.

Lemma init_counted o : counted (init o).
Proof.
  split; [apply init_claims_fresh|]. simpl. rewrite !map_size_empty. split; lia.
Qed.

(** X12. In every state reached from [init], the statistic [totalClaims] is
    exactly the number of stored claims, while [totalPolicies] is at least
    the number of stored policies (it counts a policy that [create_policy]
    has overwritten twice). *)
Theorem statistics_count_records (tr : list (Ctx * Call)) (ow : string) :
  let s := run_trace tr (init ow) in
  stats_totalClaims (getContractStats s) = size (claims s)
  /\ (size (policies s) <= stats_totalPolicies (getContractStats s))%nat.
Proof.
  intros s.
  assert (Hs : counted s)
    by (apply run_trace_invariant; [apply step_counted | apply init_counted]).
  destruct Hs as (_ & Hc & Hp). simpl. split; [symmetry; exact Hc | exact Hp].
Qed.

(** *** The automation's payout marker *)

(** X13. [process_policy_claims] moves no money: whatever its arguments and
    outcome, no transfer is scheduled, no claim is created, the payout and
    premium statistics stay as they are and no policy's [claimsPaid] or
    [premiumPaid] changes. *)
Theorem process_policy_claims_pays_nothing (ctx : Ctx) (s : Contract)
    (pid : string) (r : Q) (cid ts : string) :
  let s' := step s (ctx, ProcessPolicyClaims pid r cid ts) in
  promises s' = promises s /\ claims s' = claims s
  /\ totalClaimsPaid s' = totalClaimsPaid s
  /\ totalPremiumsCollected s' = totalPremiumsCollected s
  /\ forall k p', policies s' !! k = Some p' ->
       exists p, policies s !! k = Some p
         /\ claimsPaid p' = claimsPaid p /\ premiumPaid p' = premiumPaid p.
Proof.
  intros s'. subst s'.
  remember (ProcessPolicyClaims pid r cid ts) as c eqn:Hc.
  effect_cases (step_effect ctx s c); try discriminate;
    repeat split; try reflexivity.
  - intros k p' Hk. exists p'. auto.
  - intros k q Hk. simpl in Hk.
    destruct (decide (pid' = k)) as [<- | Hne].
    + rewrite lookup_insert_eq in Hk. injection Hk as <-.
      exists p'. auto.
    + rewrite lookup_insert_ne in Hk by exact Hne. exists q. auto.
Qed.


(** X15. [update_policy_status] is open to every caller and writes the status
    only. In particular, marking a policy Active this way does not make it
    claimable: the flag [isActive] stays unset and [fileClaim] still
    fails. *)
Theorem update_policy_status_does_not_activate (ctx ctx' : Ctx) (s : Contract)
    (pid : string) (p : InsurancePolicy) (rsn : string) (w : WeatherData) :
  policies s !! pid = Some p ->
  isActive p = false ->
  exists s',
    update_policy_status ctx pid active s = Return tt s'
    /\ policies s' !! pid = Some (policy_set_status p active (payoutTrigger p))
    /\ (forall k, k <> pid -> policies s' !! k = policies s !! k)
    /\ exists m, fileClaim ctx' pid rsn w s' = Panic m.
Proof.
  intros Hp Hact. eexists. split.
  { unfold update_policy_status. unfold_monad. rewrite Hp. reflexivity. }
  simpl. split; [apply lookup_insert_eq|]. split.
  - intros k Hk. apply lookup_insert_ne. congruence.
  - match goal with |- exists m, fileClaim _ _ _ _ ?s' = _ =>
      pose proof (fileClaim_spec ctx' s' pid rsn w) as H end.
    simpl in H. rewrite lookup_insert_eq in H. simpl in H. rewrite Hact in H.
    destruct (farmer p =? predecessorAccountId ctx')%string; simpl in H; eauto.
Qed.

(** *** Prices and payouts *)

Lemma premiumRate_range crop loc :
  includes validCrops (toLowerCase crop) = true ->
  500 <= premiumRate crop loc <= 975.
Proof.
  intros Hin. apply includes_validCrops in Hin.
  unfold premiumRate, cropMultiplier, calculateGeographicalRisk.
  set (l := Qabs (lat loc)).
  simpl in Hin.
  repeat (destruct Hin as [<- | Hin]; [
    destruct (Qltb l 10); [vm_compute; split; discriminate|];
    destruct (Qltb l (235 # 10)); [vm_compute; split; discriminate|];
    destruct (Qltb l 35); [vm_compute; split; discriminate|];
    destruct (Qltb l 50); vm_compute; split; discriminate |]).
  contradiction.
Qed.

Lemma inputs_ok_coverage ctx crop loc cov sd ed wp :
  inputs_ok ctx crop loc cov sd ed wp = true ->
  MIN_PREMIUM_USDC <= cov <= MAX_COVERAGE_USDC
  /\ includes validCrops (toLowerCase crop) = true.
Proof.
  unfold inputs_ok. intros H.
  repeat (apply andb_prop in H as [H ?]).
  repeat split; try assumption; apply Z.leb_le; assumption.
Qed.

Lemma calculatePremium_bounds ctx crop loc cov sd ed wp :
  inputs_ok ctx crop loc cov sd ed wp = true ->
  let pr := calculatePremium cov crop loc in
  500 <= premiumRate crop loc <= 975
  /\ Z.max MIN_PREMIUM_USDC (cov * 500 / 10000) <= pr
  /\ pr <= Z.max MIN_PREMIUM_USDC (cov * 975 / 10000)
  /\ pr <= cov
  /\ (pr = cov <-> cov = MIN_PREMIUM_USDC).
Proof.
  intros Hok pr.
  apply inputs_ok_coverage in Hok as [[Hlo Hhi] Hcrop].
  pose proof (premiumRate_range crop loc Hcrop) as Hrate.
  split; [exact Hrate|].
  subst pr. rewrite calculatePremium_max.
  unfold MIN_PREMIUM_USDC, MAX_COVERAGE_USDC, BASIS_POINTS in *.
  set (rate := premiumRate crop loc) in *.
  rewrite Z.quot_div_nonneg by nia.
  assert (H1 : cov * 500 / 10000 <= cov * rate / 10000)
    by (apply Z.div_le_mono; nia).
  assert (H2 : cov * rate / 10000 <= cov * 975 / 10000)
    by (apply Z.div_le_mono; nia).
  assert (H3 : cov * 975 / 10000 < cov)
    by (apply Z.div_lt_upper_bound; nia).
  repeat split; lia.
Qed.

(** X16. The premium of every policy that [createPolicy] accepts lies between
    5 and 9.75 percent of the coverage, or is the minimum premium of
    1,000,000 where that is more; it never exceeds the coverage and equals
    the whole coverage exactly at the minimum coverage of 1,000,000. *)
Theorem premium_bounds (ctx : Ctx) (s s' : Contract) (crop : string)
    (loc : Location) (cov : Z) (sd ed : string) (wp : WeatherParameters)
    (id : string) :
  createPolicy ctx crop loc cov sd ed wp s = Return id s' ->
  let pr := calculatePremium cov crop loc in
  500 <= premiumRate crop loc <= 975
  /\ Z.max MIN_PREMIUM_USDC (cov * 500 / 10000) <= pr
  /\ pr <= Z.max MIN_PREMIUM_USDC (cov * 975 / 10000)
  /\ pr <= cov
  /\ (pr = cov <-> cov = MIN_PREMIUM_USDC).
Proof.
  intros Hret.
  destruct (createPolicy_spec Date_getTime ctx crop loc cov sd ed wp s)
    as [[Hok _] | [_ [m H]]]; [|congruence].
  apply (calculatePremium_bounds ctx crop loc cov sd ed wp Hok).
Qed.

End Statistics.


Section Queries.

Variable JSON_policyId : string -> option string.
Variable Date_getTime : string -> option Z.
Variable LookupMap_entries :
  gmap string InsurancePolicy -> option (list (string * InsurancePolicy)).

Local Notation step := (step JSON_policyId Date_getTime).
Local Notation createPolicy := (createPolicy Date_getTime).
Local Notation get_policies := (get_policies LookupMap_entries).
Local Notation get_active_policies_count := (get_active_policies_count LookupMap_entries).
Local Notation get_total_coverage := (get_total_coverage LookupMap_entries).
Local Notation get_total_payouts := (get_total_payouts LookupMap_entries).


(** *** Queries *)

Lemma status_filter_matches status_ p :
  match truthy_string status_ with
  | Some st => negb (String.eqb (status p) st)
  | None => false
  end = negb (status_matches status_ p).
Proof. unfold status_matches. destruct (truthy_string status_); reflexivity. Qed.

Lemma get_policies_loop_take maxResults status_ entries acc :
  get_policies_loop maxResults None status_ entries acc
  = (acc ++ take (maxResults - length acc)
              (filter (fun p => status_matches status_ p = true) (map snd entries)))%list.
Proof.
  revert acc. induction entries as [|[k p] rest IH]; intros acc.
  - simpl. rewrite filter_nil, take_nil, app_nil_r. reflexivity.
  - cbn [get_policies_loop truthy_string map snd].
    destruct (maxResults <=? length acc)%nat eqn:E.
    + apply Nat.leb_le in E. replace (maxResults - length acc)%nat with 0%nat by lia.
      rewrite take_0, app_nil_r. reflexivity.
    + apply Nat.leb_gt in E. rewrite status_filter_matches.
      destruct (status_matches status_ p) eqn:Hm; cbn [negb].
      * rewrite IH, filter_cons_True by exact Hm.
        rewrite length_app. cbn [length].
        replace (maxResults - length acc)%nat
          with (S (maxResults - (length acc + 1)))%nat by lia.
        cbn [take]. rewrite <- app_assoc. reflexivity.
      * rewrite IH, filter_cons_False by congruence. reflexivity.
Qed.


Lemma count_status_length st entries count :
  st <> EmptyString ->
  count_status st entries count
  = (count + length (filter (fun p => status_matches (Some st) p = true)
                       (map snd entries)))%nat.
Proof.
  intros Hne. apply String.eqb_neq in Hne.
  assert (Hm : forall p, status_matches (Some st) p = String.eqb (status p) st)
    by (intros p; unfold status_matches; simpl; rewrite Hne; reflexivity).
  revert count. induction entries as [|[k p] rest IH]; intros count.
  - simpl. rewrite ?filter_nil. simpl. lia.
  - cbn [count_status map snd].
    destruct (status p =? st)%string eqn:E; rewrite IH.
    + rewrite filter_cons_True by (rewrite Hm; exact E). cbn [length]. lia.
    + rewrite filter_cons_False by (rewrite Hm, E; discriminate). reflexivity.
Qed.


Lemma total_status_spec st entries s :
  total_status st entries s
  = if forallb (fun e => negb (String.eqb (status (snd e)) st)) entries
    then Return 0 s
    else Panic "TypeError: Cannot mix BigInt and other types, use explicit conversions".
Proof.
  induction entries as [|[k p] rest IH]; simpl; [reflexivity|].
  destruct (status p =? st)%string; simpl; [reflexivity | exact IH].
Qed.


End Queries.


Section WeatherStore.

Variable JSON_policyId : string -> option string.
Variable Date_getTime : string -> option Z.

Local Notation step := (step JSON_policyId Date_getTime).

(** *** Weather observations by station and timestamp *)

Lemma pretty_N_char_not_underscore x : Ascii.eqb (pretty_N_char x) "_" = false.
Proof. unfold pretty_N_char. repeat case_match; reflexivity. Qed.

Lemma pretty_N_go_no_underscore x s :
  has_char "_" s = false -> has_char "_" (pretty_N_go x s) = false.
Proof.
  revert s. induction (N.lt_wf_0 x) as [x _ IH]; intros s Hs.
  assert (x = 0 \/ 0 < x)%N as [-> | Hx] by lia.
  - rewrite pretty_N_go_0. exact Hs.
  - rewrite pretty_N_go_step by exact Hx. apply IH.
    + apply N.div_lt; lia.
    + simpl. rewrite pretty_N_char_not_underscore. exact Hs.
Qed.

Lemma pretty_N_no_underscore (n : N) : has_char "_" (pretty n) = false.
Proof.
  unfold pretty, pretty_N. case_decide; [reflexivity|].
  apply pretty_N_go_no_underscore. reflexivity.
Qed.

Lemma pretty_Z_no_underscore (z : Z) : has_char "_" (pretty z) = false.
Proof.
  unfold pretty, pretty_Z. destruct z as [|p|p]; [reflexivity| |].
  - apply (pretty_N_no_underscore (Npos p)).
  - simpl. apply (pretty_N_no_underscore (Npos p)).
Qed.

Lemma has_char_app c s1 s2 :
  has_char c (s1 +:+ s2) = has_char c s1 || has_char c s2.
Proof.
  induction s1 as [|a s1 IH]; simpl; [reflexivity|].
  rewrite IH. apply orb_assoc.
Qed.

Lemma weather_key_inj st1 d1 st2 d2 :
  has_char "_" d1 = false -> has_char "_" d2 = false ->
  weather_key st1 d1 = weather_key st2 d2 -> st1 = st2 /\ d1 = d2.
Proof.
  unfold weather_key. intros H1 H2. revert st2.
  induction st1 as [|a st1 IH]; intros [|b st2] Heq;
    cbv [String.append] in Heq; fold String.append in Heq.
  - injection Heq as Hd. auto.
  - injection Heq as _ Hd. exfalso. rewrite Hd in H1.
    rewrite has_char_app in H1. simpl in H1.
    rewrite orb_true_r in H1. discriminate.
  - injection Heq as _ Hd. exfalso. rewrite <- Hd in H2.
    rewrite has_char_app in H2. simpl in H2.
    rewrite orb_true_r in H2. discriminate.
  - injection Heq as -> Heq. destruct (IH st2 Heq) as [-> ->]. auto.
Qed.

(** X21. An observation received from an authorized oracle is found again
    by [getWeatherData] under its station and timestamp, and it takes the
    place of no observation of another station or another timestamp: the
    key made of station, underscore and timestamp tells them apart, even
    for station names that contain underscores. *)
Theorem received_weather_is_retrievable (ctx : Ctx) (s : Contract)
    (station : string) (ts : Z) (cid : string) :
  authorizedOracles s !! predecessorAccountId ctx = Some true ->
  let s' := step s (ctx, ReceiveWeather station ts cid) in
  getWeatherData station ts s' = Some (received_observation station ts cid)
  /\ forall station2 ts2,
       (station2, ts2) <> (station, ts) ->
       getWeatherData station2 ts2 s' = getWeatherData station2 ts2 s.
Proof.
  intros Hauth s'. subst s'. unfold_calls.
  apply is_authorized_true in Hauth. rewrite Hauth. simpl.
  unfold getWeatherData. simpl. split; [apply lookup_insert_eq|].
  intros station2 ts2 Hne. apply lookup_insert_ne. intros Heq.
  apply weather_key_inj in Heq as [-> Hts]; try apply pretty_Z_no_underscore.
  apply pretty_Z_inj in Hts. subst. contradiction.
Qed.

End WeatherStore.


(** *** Amounts as text *)

Lemma digit_value_pretty_N_char d :
  (d < 10)%N -> digit_value (pretty_N_char d) = Some d.
Proof.
  intros Hd.
  assert (d = 0 \/ d = 1 \/ d = 2 \/ d = 3 \/ d = 4 \/ d = 5 \/ d = 6
          \/ d = 7 \/ d = 8 \/ d = 9)%N as Hc by lia.
  repeat (destruct Hc as [-> | Hc]; [reflexivity|]). subst d. reflexivity.
Qed.

Lemma string_app_assoc (a b c : string) : (a +:+ b) +:+ c = a +:+ (b +:+ c).
Proof.
  induction a as [|x a IH]; cbv [String.append]; fold String.append;
    [reflexivity|]. f_equal. exact IH.
Qed.

Lemma string_app_cons (x : ascii) (a b : string) :
  String x a +:+ b = String x (a +:+ b).
Proof. reflexivity. Qed.

Lemma string_app_nil_l (b : string) : EmptyString +:+ b = b.
Proof. reflexivity. Qed.

Lemma string_app_nil_r (a : string) : a +:+ EmptyString = a.
Proof.
  induction a as [|x a IH]; [reflexivity|].
  rewrite string_app_cons. f_equal. exact IH.
Qed.

Lemma string_length_app (a b : string) :
  String.length (a +:+ b) = (String.length a + String.length b)%nat.
Proof.
  induction a as [|x a IH]; [reflexivity|].
  rewrite string_app_cons. simpl. f_equal. exact IH.
Qed.

Lemma pretty_N_go_app x s :
  pretty_N_go x s = pretty_N_go x EmptyString +:+ s.
Proof.
  revert s. induction (N.lt_wf_0 x) as [x _ IH]; intros s.
  assert (x = 0 \/ 0 < x)%N as [-> | Hx] by lia.
  - rewrite !pretty_N_go_0. reflexivity.
  - rewrite (pretty_N_go_step x s), (pretty_N_go_step x EmptyString)
      by exact Hx.
    assert (Hlt : (x `div` 10 < x)%N) by (apply N.div_lt; lia).
    rewrite (IH _ Hlt (String (pretty_N_char (x `mod` 10)) s)).
    rewrite (IH _ Hlt (String (pretty_N_char (x `mod` 10)) EmptyString)).
    rewrite string_app_assoc. reflexivity.
Qed.

Lemma digits_value_app acc s1 s2 :
  digits_value acc (s1 +:+ s2) =
  match digits_value acc s1 with
  | Some a => digits_value a s2
  | None => None
  end.
Proof.
  revert acc. induction s1 as [|c s1 IH]; intros acc; [reflexivity|].
  rewrite string_app_cons. simpl.
  destruct (digit_value c); [apply IH | reflexivity].
Qed.

Lemma pretty_N_go_value x :
  digits_value 0 (pretty_N_go x EmptyString) = Some x.
Proof.
  induction (N.lt_wf_0 x) as [x _ IH].
  assert (x = 0 \/ 0 < x)%N as [-> | Hx] by lia.
  - reflexivity.
  - rewrite pretty_N_go_step by exact Hx.
    rewrite pretty_N_go_app, digits_value_app.
    rewrite IH by (apply N.div_lt; lia).
    simpl. rewrite digit_value_pretty_N_char by (apply N.mod_lt; lia).
    f_equal. pose proof (N.div_mod x 10). lia.
Qed.

Lemma pretty_N_value (n : N) : digits_value 0 (pretty n) = Some n.
Proof.
  unfold pretty, pretty_N. case_decide as Hn.
  - subst n. reflexivity.
  - apply pretty_N_go_value.
Qed.

Lemma pretty_N_go_length x s n :
  (x < 10 ^ N.of_nat n)%N ->
  (String.length (pretty_N_go x s) <= n + String.length s)%nat.
Proof.
  revert x s. induction n as [|n IH]; intros x s Hx.
  - assert (x = 0%N) as -> by (simpl in Hx; lia).
    rewrite pretty_N_go_0. lia.
  - assert (x = 0 \/ 0 < x)%N as [-> | Hpos] by lia.
    + rewrite pretty_N_go_0. lia.
    + rewrite pretty_N_go_step by exact Hpos.
      etrans; [apply IH|simpl; lia].
      rewrite Nat2N.inj_succ, N.pow_succ_r' in Hx.
      apply N.Div0.div_lt_upper_bound. exact Hx.
Qed.

Lemma pretty_N_length (x : N) n :
  (0 < n)%nat -> (x < 10 ^ N.of_nat n)%N ->
  (String.length (pretty x) <= n)%nat.
Proof.
  intros Hn Hx. unfold pretty, pretty_N. case_decide.
  - simpl. lia.
  - pose proof (pretty_N_go_length x EmptyString n Hx) as H'.
    simpl in H'. lia.
Qed.

Lemma pretty_N_go_nonempty x s :
  s <> EmptyString -> pretty_N_go x s <> EmptyString.
Proof.
  intros Hs. rewrite pretty_N_go_app.
  destruct (pretty_N_go x EmptyString); [exact Hs | discriminate].
Qed.

Lemma pretty_N_nonempty (x : N) : pretty x <> EmptyString.
Proof.
  unfold pretty, pretty_N. case_decide as Hx; [discriminate|].
  rewrite pretty_N_go_step by lia. apply pretty_N_go_nonempty. discriminate.
Qed.

Lemma pretty_Z_of_N (z : Z) : 0 <= z -> pretty z = pretty (Z.to_N z).
Proof.
  destruct z as [|p|p]; intros Hz; [reflexivity|reflexivity|lia].
Qed.

Lemma all_digits_value s acc :
  all_digits s = true -> is_Some (digits_value acc s).
Proof.
  revert acc. induction s as [|c s IH]; intros acc Hs; simpl in *.
  - eauto.
  - apply andb_true_iff in Hs as [Hc Hs]. apply bool_decide_eq_true in Hc.
    destruct Hc as [d ->]. apply IH. exact Hs.
Qed.

Lemma value_all_digits s acc :
  is_Some (digits_value acc s) -> all_digits s = true.
Proof.
  revert acc. induction s as [|c s IH]; intros acc Hs; simpl in *.
  - reflexivity.
  - destruct (digit_value c) as [d|] eqn:Hc.
    + rewrite (IH _ Hs), andb_true_r. apply bool_decide_eq_true. eauto.
    + destruct Hs as [? Hs]. discriminate.
Qed.

Lemma all_digits_no_dot s : all_digits s = true -> has_char "." s = false.
Proof.
  induction s as [|c s IH]; simpl; intros Hs; [reflexivity|].
  apply andb_true_iff in Hs as [Hc Hs]. rewrite (IH Hs), orb_false_r.
  apply bool_decide_eq_true in Hc. destruct Hc as [d Hd].
  destruct (Ascii.eqb_spec c ".") as [-> | ]; [discriminate | reflexivity].
Qed.

Lemma all_digits_app s1 s2 :
  all_digits (s1 +:+ s2) = all_digits s1 && all_digits s2.
Proof.
  induction s1 as [|c s1 IH]; [reflexivity|].
  rewrite string_app_cons. simpl. rewrite IH. apply andb_assoc.
Qed.

Lemma all_digits_zeros n : all_digits (replicate_char n "0") = true.
Proof. induction n as [|n IH]; [reflexivity|]. simpl. exact IH. Qed.

Lemma pretty_N_digits (n : N) : all_digits (pretty n) = true.
Proof. apply (value_all_digits _ 0%N). rewrite pretty_N_value. eauto. Qed.

Lemma replicate_char_length n c : String.length (replicate_char n c) = n.
Proof. induction n as [|n IH]; simpl; [reflexivity | f_equal; exact IH]. Qed.

Lemma digits_value_zeros_l n s :
  digits_value 0 (replicate_char n "0" +:+ s) = digits_value 0 s.
Proof.
  induction n as [|n IH]; [reflexivity|].
  simpl replicate_char. rewrite string_app_cons. simpl. exact IH.
Qed.

Lemma digits_value_zeros_r n acc :
  digits_value acc (replicate_char n "0") = Some (acc * 10 ^ N.of_nat n)%N.
Proof.
  revert acc. induction n as [|n IH]; intros acc.
  - simpl. f_equal. lia.
  - simpl replicate_char. simpl digits_value.
    change (digit_value "0") with (Some 0%N). cbv iota beta.
    rewrite IH. f_equal. rewrite Nat2N.inj_succ, N.pow_succ_r'. lia.
Qed.

Lemma slice0_length s : slice0 (String.length s) s = s.
Proof. induction s as [|c s IH]; simpl; [reflexivity | f_equal; exact IH]. Qed.

Lemma padEnd_strip s :
  strip_trailing_zeros s +:+
    replicate_char (String.length s - String.length (strip_trailing_zeros s)) "0"
  = s /\ (String.length (strip_trailing_zeros s) <= String.length s)%nat.
Proof.
  induction s as [|c s [IH Hlen]]; [split; reflexivity|].
  simpl strip_trailing_zeros.
  destruct (Ascii.eqb_spec c "0") as [-> | Hc]; simpl andb.
  - destruct (String.eqb_spec (strip_trailing_zeros s) EmptyString) as [He|He].
    + rewrite He in IH. rewrite string_app_nil_l in IH.
      simpl in IH. rewrite Nat.sub_0_r in IH.
      split; [|simpl; lia]. rewrite string_app_nil_l. simpl.
      f_equal. exact IH.
    + split; [|simpl; lia]. rewrite string_app_cons. simpl. f_equal. exact IH.
  - split; [|simpl; lia]. rewrite string_app_cons. simpl. f_equal. exact IH.
Qed.

Lemma strip_digits s : all_digits s = true ->
  all_digits (strip_trailing_zeros s) = true.
Proof.
  induction s as [|c s IH]; intros Hs; [reflexivity|].
  simpl in Hs. apply andb_true_iff in Hs as [Hc Hs]. simpl.
  destruct (_ && _); [reflexivity|]. simpl. rewrite Hc. apply IH, Hs.
Qed.

Lemma rev_app_rev_app a b c :
  String.rev_app (String.rev_app a b) c = String.rev_app b (a +:+ c).
Proof.
  revert b c. induction a as [|x a IH]; intros b c; [reflexivity|].
  simpl. rewrite IH. reflexivity.
Qed.

Lemma split_dot_go_no_dot cur d :
  has_char "." d = false ->
  split_dot_go cur d = [String.rev (String.rev_app d cur)].
Proof.
  revert cur. induction d as [|c d IH]; intros cur Hd; [reflexivity|].
  simpl in Hd. apply orb_false_iff in Hd as [Hc Hd].
  simpl. rewrite Hc. apply IH, Hd.
Qed.

Lemma split_dot_go_dot cur d r :
  has_char "." d = false ->
  split_dot_go cur (d +:+ String "." r) =
  String.rev (String.rev_app d cur) :: split_dot_go EmptyString r.
Proof.
  revert cur. induction d as [|c d IH]; intros cur Hd; [reflexivity|].
  simpl in Hd. apply orb_false_iff in Hd as [Hc Hd].
  rewrite string_app_cons. simpl. rewrite Hc. apply IH, Hd.
Qed.

Lemma split_dot_one d : has_char "." d = false -> split_dot d = [d].
Proof.
  intros Hd. unfold split_dot. rewrite split_dot_go_no_dot by exact Hd.
  unfold String.rev. rewrite rev_app_rev_app. simpl.
  rewrite string_app_nil_r. reflexivity.
Qed.

Lemma split_dot_two d1 d2 :
  has_char "." d1 = false -> has_char "." d2 = false ->
  split_dot (d1 +:+ "." +:+ d2) = [d1; d2].
Proof.
  intros H1 H2. unfold split_dot.
  change ("." +:+ d2) with (String "." d2).
  rewrite split_dot_go_dot by exact H1.
  fold (split_dot d2). rewrite split_dot_one by exact H2.
  unfold String.rev. rewrite rev_app_rev_app. simpl.
  rewrite string_app_nil_r. reflexivity.
Qed.


Lemma padStart_decimal (n : nat) (z : Z) :
  (0 < n)%nat -> 0 <= z < 10 ^ Z.of_nat n ->
  String.length (padStart n "0" (pretty z)) = n /\
  all_digits (padStart n "0" (pretty z)) = true /\
  digits_value 0 (padStart n "0" (pretty z)) = Some (Z.to_N z).
Proof.
  intros Hn [Hz0 Hz]. rewrite pretty_Z_of_N by exact Hz0.
  assert (Hlen : (String.length (pretty (Z.to_N z)) <= n)%nat).
  { apply pretty_N_length; [exact Hn|].
    apply N2Z.inj_lt. rewrite Z2N.id by exact Hz0.
    rewrite N2Z.inj_pow, nat_N_Z. exact Hz. }
  unfold padStart. split; [|split].
  - rewrite string_length_app, replicate_char_length. lia.
  - rewrite all_digits_app, all_digits_zeros, pretty_N_digits. reflexivity.
  - rewrite digits_value_zeros_l. apply pretty_N_value.
Qed.

Lemma pretty_decimal (BigInt : string -> option Z) (z : Z) :
  reads_decimal BigInt -> 0 <= z ->
  BigInt (pretty z) = Some z /\ has_char "." (pretty z) = false /\
  pretty z <> EmptyString.
Proof.
  intros HB Hz. rewrite pretty_Z_of_N by exact Hz. split; [|split].
  - rewrite (HB _ (Z.to_N z)).
    + rewrite Z2N.id by exact Hz. reflexivity.
    + apply pretty_N_nonempty.
    + apply pretty_N_value.
  - apply all_digits_no_dot, pretty_N_digits.
  - apply pretty_N_nonempty.
Qed.

Lemma length_nonempty (s : string) n :
  String.length s = S n -> s <> EmptyString.
Proof. intros Hl ->. discriminate. Qed.

Lemma slice0_exact n s : String.length s = n -> slice0 n s = s.
Proof. intros <-. apply slice0_length. Qed.

Lemma or_default_nonempty (s d : string) :
  s <> EmptyString -> or_default (Some s) d = s.
Proof.
  intros Hs. unfold or_default.
  destruct (String.eqb_spec s EmptyString); [contradiction | reflexivity].
Qed.

(** X22. The client library's formatting and parsing are inverse on
    non-negative amounts: [parseUSDC (formatUSDC a) = a], with no micro-unit
    lost, whatever [BigInt] does outside plain decimal strings. *)
Theorem client_parseUSDC_formatUSDC (BigInt : string -> option Z) (a : Z) :
  reads_decimal BigInt -> 0 <= a ->
  NearIntegration.parseUSDC BigInt (NearIntegration.formatUSDC a) = Some a.
Proof.
  intros HB Ha. unfold NearIntegration.formatUSDC.
  assert (Hq : 0 <= Z.quot a 1000000) by (apply Z.quot_pos; lia).
  assert (Hr : 0 <= Z.rem a 1000000 < 1000000)
    by (apply Z.rem_bound_pos; lia).
  pose proof (Z.quot_rem' a 1000000) as Ha'.
  destruct (pretty_decimal BigInt _ HB Hq) as (Hwhole & Hdot & Hne).
  destruct (Z.eqb_spec (Z.rem a 1000000) 0) as [Hz | Hnz].
  - unfold NearIntegration.parseUSDC. rewrite split_dot_one by exact Hdot.
    cbn [lookup list_lookup default id]. rewrite Hwhole.
    change (slice0 6 (padEnd 6 "0" EmptyString)) with "000000".
    change (String.eqb "000000" EmptyString) with false. cbv iota.
    rewrite (HB "000000" 0%N) by (discriminate || reflexivity).
    f_equal. lia.
  - destruct (padStart_decimal 6 (Z.rem a 1000000)) as (Hlen & Hdig & Hval);
      [lia | lia |].
    set (P := padStart 6 "0" (pretty (Z.rem a 1000000))) in *.
    unfold NearIntegration.parseUSDC.
    rewrite split_dot_two;
      [| exact Hdot | apply all_digits_no_dot, strip_digits, Hdig].
    cbn [lookup list_lookup default id]. rewrite Hwhole.
    destruct (padEnd_strip P) as [Hpad _]. rewrite Hlen in Hpad.
    unfold padEnd. rewrite Hpad, (slice0_exact 6 P Hlen).
    destruct (String.eqb_spec P EmptyString) as [He | _].
    { rewrite He in Hlen. discriminate. }
    rewrite (HB P _ (length_nonempty _ _ Hlen) Hval).
    f_equal. rewrite Z2N.id by lia. lia.
Qed.

(** X23. The contract's own helpers keep whole cents only: formatting a
    non-negative amount and parsing the text back gives the amount rounded
    down to a multiple of 10000 micro-units, so the round trip is exact
    precisely on such multiples. *)
Theorem parseUSDC_formatUSDC (BigInt : string -> option Z) (u : Z) :
  reads_decimal BigInt -> 0 <= u ->
  parseUSDC BigInt (formatUSDC u) = Some (u - u mod 10000) /\
  (parseUSDC BigInt (formatUSDC u) = Some u <-> u mod 10000 = 0).
Proof.
  intros HB Hu.
  assert (Hmain : parseUSDC BigInt (formatUSDC u) = Some (u - u mod 10000)).
  { unfold formatUSDC.
    assert (Hq : 0 <= Z.quot u 1000000) by (apply Z.quot_pos; lia).
    assert (Hr : 0 <= Z.rem u 1000000 < 1000000)
      by (apply Z.rem_bound_pos; lia).
    pose proof (Z.quot_rem' u 1000000) as Hu'.
    set (q := Z.quot u 1000000) in *. set (r := Z.rem u 1000000) in *.
    assert (Hc : 0 <= Z.quot r 10000 < 100).
    { rewrite Z.quot_div_nonneg by lia. split.
      - apply Z.div_pos; lia.
      - apply Z.div_lt_upper_bound; lia. }
    destruct (pretty_decimal BigInt _ HB Hq) as (Hwhole & Hdot & Hne).
    destruct (padStart_decimal 2 (Z.quot r 10000)) as (Hlen & Hdig & Hval);
      [lia | lia |].
    set (C := padStart 2 "0" (pretty (Z.quot r 10000))) in *.
    unfold parseUSDC.
    rewrite split_dot_two; [| exact Hdot | apply all_digits_no_dot, Hdig].
    cbn [lookup list_lookup].
    rewrite (or_default_nonempty _ _ Hne).
    rewrite (or_default_nonempty C _ (length_nonempty _ _ Hlen)).
    rewrite Hwhole. unfold padEnd. rewrite Hlen.
    assert (Hl6 : String.length (C +:+ replicate_char (6 - 2) "0") = 6%nat)
      by (rewrite string_length_app, replicate_char_length, Hlen; reflexivity).
    rewrite (slice0_exact 6 _ Hl6).
    rewrite (HB _ (Z.to_N (Z.quot r 10000) * 10 ^ N.of_nat (6 - 2))%N).
    - f_equal. rewrite N2Z.inj_mul, Z2N.id by lia.
      change (Z.of_N (10 ^ N.of_nat (6 - 2))) with 10000.
      rewrite Z.quot_div_nonneg by lia.
      assert (Hm : u mod 10000 = r mod 10000).
      { rewrite Hu'. replace (1000000 * q + r) with (r + (100 * q) * 10000)
          by lia. apply Z.mod_add. lia. }
      rewrite Hm. pose proof (Z.div_mod r 10000). lia.
    - apply (length_nonempty _ 5). exact Hl6.
    - rewrite digits_value_app, Hval. apply digits_value_zeros_r. }
  split; [exact Hmain|]. rewrite Hmain. split.
  - intros [= H]. lia.
  - intros H. f_equal. lia.
Qed.

(** ** The properties on the scenarios *)

(** [oracle_gate] on the deployed contract: the farmer is turned away, the
    initial oracle gets its observation stored. *)
Lemma oracle_gate_witness :
  submitWeatherData (ctx_of farmer_account) "WXM_001" 25 500 70 10 None s_init
  = Panic "assertion failed: Only authorized oracles can submit weather data"
  /\ exists s1,
       submitWeatherData (ctx_of "weather-oracle.testnet") "WXM_001" 25 500 70 10
         None s_init = Return tt s1
       /\ is_Some (weatherDataStorage s1 !! "WXM_001_1700000000000000000").
Proof.
  split.
  - apply (oracle_gate plain_policyId iso_dates (ctx_of farmer_account) s_init
             "WXM_001" 25 500 70 10 None 0 "cid").
    vm_compute. discriminate.
  - destruct (oracle_gate plain_policyId iso_dates (ctx_of "weather-oracle.testnet")
                s_init "WXM_001" 25 500 70 10 None 0 "cid") as [_ H].
    destruct (H eq_refl) as [(s1 & Hret & Hlook) _].
    exists s1. split; [exact Hret|]. eexists. exact Hlook.
Defined.

(** [ft_on_transfer_refunds_all] on the Pending wheat policy: a call from the
    farmer instead of the token contract aborts, and 1,000,000 against a
    premium of 5,000,000 comes back whole. *)
Lemma ft_on_transfer_refunds_all_witness :
  ft_on_transfer plain_policyId (ctx_of farmer_account) farmer_account 5000000
    (policy_msg "policy_1") s_pending = Panic not_token_issuer_msg
  /\ ft_on_transfer plain_policyId (ctx_of USDC_CONTRACT) farmer_account 1000000
       (policy_msg "policy_1") s_pending = Return 1000000 s_pending.
Proof.
  split.
  - apply (ft_on_transfer_refunds_all plain_policyId iso_dates
             (ctx_of farmer_account) s_pending farmer_account 5000000
             (policy_msg "policy_1")).
    vm_compute. discriminate.
  - apply (ft_on_transfer_refunds_all plain_policyId iso_dates
             (ctx_of USDC_CONTRACT) s_pending farmer_account 1000000
             (policy_msg "policy_1")); [reflexivity|].
    right. exists "policy_1". split; [reflexivity|]. right.
    eexists. split; [vm_compute; reflexivity|]. right. vm_compute. reflexivity.
Defined.

(** C1 as stated fails on a replayed delivery: the policy is already Active,
    yet the callback keeps the premium a second time, refunds nothing and
    raises the premium statistic again. *)
Lemma replayed_settlement_is_accepted :
  (exists p, policies s_active !! "policy_1" = Some p
     /\ status p = active /\ status p <> pending)
  /\ totalPremiumsCollected s_active = 5000000
  /\ exists s',
       ft_on_transfer plain_policyId (ctx_of USDC_CONTRACT) farmer_account 5000000
         (policy_msg "policy_1") s_active = Return 0 s'
       /\ totalPremiumsCollected s' = 10000000
       /\ Return 0 s' <> Return 5000000 s_active.
Proof.
  split.
  - eexists. split; [vm_compute; reflexivity|]. split; [reflexivity|discriminate].
  - split; [vm_compute; reflexivity|].
    eexists. split; [vm_compute; reflexivity|].
    split; [reflexivity|discriminate].
Qed.

(** [overpayment_recorded_in_full] on the Pending wheat policy: 7,000,000
    paid, 2,000,000 refunded, 7,000,000 counted. *)
Lemma overpayment_recorded_in_full_witness :
  exists s',
    ft_on_transfer plain_policyId (ctx_of USDC_CONTRACT) farmer_account 7000000
      (policy_msg "policy_1") s_pending = Return 2000000 s'
    /\ totalPremiumsCollected s' = 7000000.
Proof.
  destruct (overpayment_recorded_in_full plain_policyId (ctx_of USDC_CONTRACT)
              s_pending farmer_account 7000000 (policy_msg "policy_1") "policy_1"
              (new_policy (ctx_of farmer_account) "policy_1" "wheat" temperate
                 100000000 "2030-01-01" "2030-12-31" wheat_thresholds))
    as (s' & Hret & _ & _ & Htot & _).
  - reflexivity.
  - reflexivity.
  - vm_compute. reflexivity.
  - reflexivity.
  - vm_compute. reflexivity.
  - exists s'. split; [exact Hret | exact Htot].
Defined.

(** C6 at the input of the repository's integration tests: a wheat policy
    with coverage 100,000,000 at latitude 40.7128. The tests settle it with
    5,000,000 and expect the policy Active, [premiumPaid] 5,000,000 and
    5,000,000 collected. The code prices it at 5,500,000 (6,500,000 at the
    equator), so the settlement of 5,000,000 is refunded whole: the policy
    stays Pending with nothing paid and nothing collected. *)
Lemma wheat_premium_varies_with_latitude :
  let s := run [(ctx_of farmer_account, create_wheat new_york)] s_init in
  calculatePremium 100000000 "wheat" new_york = 5500000
  /\ calculatePremium 100000000 "wheat" tropical = 6500000
  /\ (exists p, policies s !! "policy_1" = Some p
        /\ status p = pending /\ premium p = 5500000 /\ premium p <> 5000000)
  /\ ft_on_transfer plain_policyId (ctx_of USDC_CONTRACT) farmer_account 5000000
       (policy_msg "policy_1") s = Return 5000000 s
  /\ (let s' := run [settle farmer_account 5000000 "policy_1"] s in
      exists p, policies s' !! "policy_1" = Some p
        /\ status p = pending /\ isActive p = false /\ premiumPaid p = 0
        /\ totalPremiumsCollected s' = 0).
Proof.
  intros s. split; [vm_compute; reflexivity|]. split; [vm_compute; reflexivity|].
  split; [|split].
  - eexists. split; [vm_compute; reflexivity|].
    split; [reflexivity|]. split; [vm_compute; reflexivity|].
    vm_compute. discriminate.
  - vm_compute. reflexivity.
  - intros s'. eexists. split; [vm_compute; reflexivity|].
    repeat split; reflexivity.
Qed.

(** [createPolicy_prices_and_settles] on the wheat policy at latitude 30. *)
Lemma createPolicy_prices_and_settles_witness :
  exists p,
    policies s_pending !! "policy_1" = Some p
    /\ status p = pending /\ premiumPaid p = 0 /\ premium p = 5000000
    /\ exists s'' p'',
         ft_on_transfer plain_policyId (ctx_of USDC_CONTRACT) farmer_account
           (premium p) (policy_msg "policy_1") s_pending = Return 0 s''
         /\ policies s'' !! "policy_1" = Some p''
         /\ status p'' = active /\ premiumPaid p'' = premium p.
Proof.
  destruct (createPolicy_prices_and_settles plain_policyId iso_dates
              (ctx_of farmer_account) (ctx_of USDC_CONTRACT) s_init s_pending
              "wheat" temperate 100000000 "2030-01-01" "2030-12-31"
              wheat_thresholds "policy_1" (policy_msg "policy_1"))
    as (p & Hp & Hst & Hpaid & _ & _ & _ & _ & Hwheat & Hsettle).
  - vm_compute. reflexivity.
  - reflexivity.
  - reflexivity.
  - exists p. split; [exact Hp|]. split; [exact Hst|]. split; [exact Hpaid|].
    split; [|exact Hsettle].
    apply Hwheat; [reflexivity | reflexivity | |]; vm_compute;
      [discriminate | reflexivity].
Defined.

(** C7 at the boundary: a start date equal to the current time passes
    [validatePolicyInputs], whose check is [>=] under the message "Policy
    start date must be in the future", and the policy is created. *)
Lemma createPolicy_accepts_start_equal_to_now :
  let ctx := {| predecessorAccountId := farmer_account;
                currentAccountId := contract_account;
                blockTimestamp := 1893456000000000000%N;
                now := 1893456000000 |} in
  iso_dates "2030-01-01" = Some (now ctx)
  /\ exists s',
       createPolicy iso_dates ctx "wheat" temperate 100000000 "2030-01-01"
         "2030-12-31" wheat_thresholds s_init = Return "policy_1" s'
       /\ exists p, policies s' !! "policy_1" = Some p
            /\ status p = pending /\ startDate p = "2030-01-01".
Proof.
  intros ctx. split; [reflexivity|].
  eexists. split; [vm_compute; reflexivity|].
  eexists. split; [vm_compute; reflexivity|]. split; reflexivity.
Qed.

(** C4 on the documented scenario: temperature 45 against [5,30] and
    rainfall 50 against [300,1000] evaluate to 60 percent, 60,000,000 of the
    coverage, but filed by the farmer the call aborts in [triggerPayout],
    whose guard only lets the contract's own account through: no claim is
    recorded and the policy stays Active. *)
Lemma fileClaim_by_farmer_aborts_on_breach :
  evaluateThresholds extreme_weather wheat_thresholds = (true, 60)
  /\ (exists p, policies s_active !! "policy_1" = Some p
        /\ status p = active /\ isActive p = true
        /\ farmer p = farmer_account /\ payout_amount p extreme_weather = 60000000)
  /\ fileClaim (ctx_of farmer_account) "policy_1" "Extreme temperature damage"
       extreme_weather s_active
     = Panic "assertion failed: Only contract can trigger payouts"
  /\ call (ctx_of farmer_account)
       (FileClaim "policy_1" "Extreme temperature damage" extreme_weather) s_active
     = Panic "assertion failed: Only contract can trigger payouts"
  /\ run [(ctx_of farmer_account,
           FileClaim "policy_1" "Extreme temperature damage" extreme_weather)]
       s_active = s_active
  /\ claims s_active !! "claim_1" = None.
Proof.
  split; [vm_compute; reflexivity|]. split.
  - eexists. split; [vm_compute; reflexivity|].
    repeat split; vm_compute; reflexivity.
  - repeat split; vm_compute; reflexivity.
Qed.

(** C5 on a policy already paid out: after the payout the policy is Claimed
    and its claim Paid, yet [fileClaim] accepts a second claim on it (the
    guard reads the flag [isActive], which the payout leaves [true]) and
    pays the coverage share again. *)
Lemma fileClaim_accepts_claimed_policy :
  (exists p, policies s_own_claimed !! "policy_1" = Some p
     /\ status p = claimed /\ isActive p = true /\ claimsPaid p = 60000000)
  /\ (exists c, claims s_own_claimed !! "claim_1" = Some c
        /\ claim_status c = ClaimPaid /\ claimAmount c = 60000000)
  /\ exists s',
       fileClaim (ctx_of contract_account) "policy_1" "again" extreme_weather
         s_own_claimed = Return "claim_2" s'
       /\ (exists c, claims s' !! "claim_2" = Some c /\ claim_status c = ClaimPaid)
       /\ (exists p, policies s' !! "policy_1" = Some p /\ claimsPaid p = 120000000)
       /\ promises s'
          = [ {| receiver_id := contract_account; transfer_amount := 60000000 |};
              {| receiver_id := contract_account; transfer_amount := 60000000 |} ].
Proof.
  split; [eexists; split; [vm_compute; reflexivity | repeat split; reflexivity]|].
  split; [eexists; split; [vm_compute; reflexivity | repeat split; reflexivity]|].
  eexists. split; [vm_compute; reflexivity|].
  split; [eexists; split; [vm_compute; reflexivity | reflexivity]|].
  split; [eexists; split; [vm_compute; reflexivity | reflexivity]|].
  vm_compute. reflexivity.
Qed.

(** The same guard on a policy an ordinary farmer holds: once its status is
    Expired the farmer can still file a claim. *)
Lemma fileClaim_accepts_expired_policy :
  let s := run [(ctx_of farmer_account, UpdatePolicyStatus "policy_1" expired)]
             s_active in
  (exists p, policies s !! "policy_1" = Some p /\ status p = expired)
  /\ exists s', fileClaim (ctx_of farmer_account) "policy_1" "late" mild_weather s
                = Return "claim_1" s'.
Proof.
  intros s. split.
  - eexists. split; [vm_compute; reflexivity | reflexivity].
  - eexists. vm_compute. reflexivity.
Qed.

(** The failing query of C8: the policy entered for station WXM_STATION_001
    is stored and Active, the status filter alone finds it, and the query by
    that station returns nothing. *)
Lemma get_policies_by_station_finds_nothing_witness :
  (exists p, policies s_station !! "policy_0" = Some p
     /\ status p = active
     /\ get_policies entries_iterable None (Some active) None s_station
        = Return [p] s_station)
  /\ get_policies entries_iterable (Some "WXM_STATION_001") (Some active) None
       s_station = Return [] s_station
  /\ get_policies entries_not_iterable (Some "WXM_STATION_001") (Some active) None
       s_station = Panic "TypeError: this.policies is not iterable".
Proof.
  split.
  - eexists. split; [vm_compute; reflexivity|]. split; vm_compute; reflexivity.
  - split.
    + apply (get_policies_by_station_finds_nothing entries_iterable s_station
               "WXM_STATION_001" (Some active) None).
      discriminate.
    + apply (get_policies_by_station_finds_nothing entries_not_iterable s_station
               "WXM_STATION_001" (Some active) None).
      discriminate.
Defined.

(** C2 as stated fails: [update_policy_status] takes the Active policy back
    to Pending, and [process_policy_claims] takes a Pending policy to
    Claimed without its ever being Active. *)
Lemma status_can_move_backwards :
  let back := run [(ctx_of farmer_account, UpdatePolicyStatus "policy_1" pending)]
                s_active in
  let skipped := run [(ctx_of farmer_account,
                       ProcessPolicyClaims "policy_1" 10 "cid" "2030-06-30")]
                   s_pending in
  (exists p, policies s_active !! "policy_1" = Some p /\ status p = active)
  /\ (exists p, policies back !! "policy_1" = Some p /\ status p = pending)
  /\ (exists p, policies s_pending !! "policy_1" = Some p /\ status p = pending)
  /\ (exists p, policies skipped !! "policy_1" = Some p /\ status p = claimed).
Proof.
  intros back skipped.
  repeat split; eexists; (split; [vm_compute; reflexivity | reflexivity]).
Qed.

(** [status_changes_by_call] on the Pending wheat policy. *)
Lemma status_changes_by_call_witness :
  (exists p', policies (run [settle farmer_account 5000000 "policy_1"] s_pending)
                !! "policy_1" = Some p'
     /\ status_moves (FtOnTransfer farmer_account 5000000 (policy_msg "policy_1"))
          pending (status p'))
  /\ exists p', policies
                  (run [(ctx_of farmer_account,
                         ProcessPolicyClaims "policy_1" 10 "cid" "2030-06-30")]
                     s_pending) !! "policy_1" = Some p'
       /\ status p' = claimed.
Proof.
  destruct (status_changes_by_call plain_policyId iso_dates (ctx_of USDC_CONTRACT)
              s_pending (FtOnTransfer farmer_account 5000000 (policy_msg "policy_1"))
              "policy_1"
              (new_policy (ctx_of farmer_account) "policy_1" "wheat" temperate
                 100000000 "2030-01-01" "2030-12-31" wheat_thresholds))
    as (Hmove & _ & _); [reflexivity | vm_compute; reflexivity |].
  destruct (status_changes_by_call plain_policyId iso_dates (ctx_of farmer_account)
              s_pending (FtOnTransfer farmer_account 5000000 (policy_msg "policy_1"))
              "policy_1"
              (new_policy (ctx_of farmer_account) "policy_1" "wheat" temperate
                 100000000 "2030-01-01" "2030-12-31" wheat_thresholds))
    as (_ & _ & Hproc); [reflexivity | vm_compute; reflexivity |].
  split; [exact Hmove|].
  apply (Hproc eq_refl 10%Q "cid" "2030-06-30"). reflexivity.
Defined.

(** [claim_paid_at_most_once] on the contract whose first claim is Paid,
    followed by a second filing and a manual payout attempt on that claim:
    the attempt is refused and schedules nothing for [claim_1]. *)
Lemma claim_paid_at_most_once_witness :
  let tr := [ (ctx_of contract_account, FileClaim "policy_1" "again" extreme_weather);
              (ctx_of contract_account,
               AdminTriggerPayout contract_account 30000000 "claim_1") ] in
  let history :=
    [ (ctx_of contract_account, create_wheat temperate);
      settle contract_account 5000000 "policy_1";
      (ctx_of contract_account, FileClaim "policy_1" "heat" extreme_weather) ] in
  claims_fresh s_own_claimed
  /\ (paid_transitions plain_policyId iso_dates "claim_1" s_init
        (history ++ tr) <= 1)%nat
  /\ (payouts_of plain_policyId iso_dates "claim_1" s_init (history ++ tr) <= 1)%nat
  /\ (forall cl, claims s_own_claimed !! "claim_1" = Some cl ->
       exists cl', claims (run tr s_own_claimed) !! "claim_1" = Some cl'
         /\ claimAmount cl' = claimAmount cl
         /\ (claim_status cl = ClaimPaid -> cl' = cl))
  /\ payouts_of plain_policyId iso_dates "claim_1" s_own_claimed tr = 0%nat
  /\ (exists m, adminTriggerPayout (ctx_of contract_account) contract_account
                  30000000 "claim_1" s_own_claimed = Panic m)
  /\ executePayout (ctx_of contract_account) "claim_1" s_own_claimed
     = Return tt s_own_claimed.
Proof.
  intros tr history.
  assert (Hfresh : claims_fresh s_own_claimed).
  { unfold s_own_claimed, s_own_active, run.
    repeat apply run_trace_claims_fresh. apply init_claims_fresh. }
  destruct (claim_paid_at_most_once plain_policyId iso_dates s_init "claim_1"
              (history ++ tr) (init_claims_fresh contract_account))
    as (Htrans & _ & Hpay & _).
  destruct (claim_paid_at_most_once plain_policyId iso_dates s_own_claimed
              "claim_1" tr Hfresh) as (_ & Hfixed & _ & Hnone & Hguard).
  split; [exact Hfresh|]. split; [exact Htrans|]. split; [exact Hpay|].
  split; [exact Hfixed|]. split; [apply Hnone; vm_compute; reflexivity|].
  destruct (Hguard (filed_claim (ctx_of contract_account) 1 "policy_1" "heat"
                      extreme_weather 60000000 ClaimPaid))
    with (ctx := ctx_of contract_account) (rcp := contract_account)
         (amt := 30000000) as (Hadmin & _ & Hexec).
  - vm_compute. reflexivity.
  - discriminate.
  - split; [exact Hadmin | exact Hexec].
Defined.

(** After the overpaid activation the statistic stands at 7,000,000 against
    5,000,000 of required premiums. *)
Lemma premium_statistic_exceeds_required :
  let s := run [settle farmer_account 7000000 "policy_1"] s_pending in
  totalPremiumsCollected s = 7000000 /\ required_premiums_of_active s = 5000000.
Proof. intros s. split; vm_compute; reflexivity. Qed.

(** The two creation calls number their policies differently: [createPolicy]
    uses the counter plus one, [create_policy] the counter itself, so the
    second overwrites the policy the first has just stored. *)
Lemma create_policy_reuses_identifier :
  let s := run [(ctx_of contract_account,
                 Create_policy "other.testnet" "rice" 1 1 30 "WXM_STATION_001"
                   "2030-01-01" "2030-12-31")] s_active in
  (exists p, policies s_active !! "policy_1" = Some p
     /\ farmer p = farmer_account /\ status p = active)
  /\ (exists p, policies s !! "policy_1" = Some p
        /\ farmer p = "other.testnet" /\ status p = pending).
Proof.
  intros s. split; eexists; (split; [vm_compute; reflexivity|]);
    split; reflexivity.
Qed.

(** ** The further properties on the scenarios *)

(** [BigInt_decimal] reads decimal strings as [reads_decimal] asks. *)
Lemma BigInt_decimal_reads : reads_decimal BigInt_decimal.
Proof.
  intros s n Hs H. destruct s as [|c r]; [contradiction|].
  destruct (Ascii.eqb_spec c "-") as [-> | Hc]; [simpl in H; discriminate|].
  assert (Heq : BigInt_decimal (String c r)
                = option_map Z.of_N (digits_value 0 (String c r))).
  { destruct c as [[] [] [] [] [] [] [] []]; try reflexivity. contradiction. }
  rewrite Heq, H. reflexivity.
Qed.

(** [registry_changes_only_by_owner]: a farmer's attempts to add an oracle
    and to remove the initial one leave the registry as deployed. *)
Lemma registry_changes_only_by_owner_witness :
  let tr := [ (ctx_of farmer_account, AddOracle farmer_account);
              (ctx_of farmer_account, RemoveOracle "weather-oracle.testnet") ] in
  authorizedOracles (run tr s_init) = authorizedOracles s_init.
Proof.
  intros tr. apply (registry_changes_only_by_owner plain_policyId iso_dates tr s_init).
  repeat constructor; simpl; discriminate.
Defined.

(** [oracle_add_remove] for the owner of the deployed contract. *)
Lemma oracle_add_remove_witness :
  is_authorized "second-oracle.testnet"
    (run [(ctx_of contract_account, AddOracle "second-oracle.testnet")] s_init) = true
  /\ is_authorized "weather-oracle.testnet"
       (run [(ctx_of contract_account, RemoveOracle "weather-oracle.testnet")] s_init)
     = false.
Proof.
  destruct (oracle_add_remove plain_policyId iso_dates (ctx_of contract_account)
              s_init "second-oracle.testnet" "second-oracle.testnet"
              contract_account eq_refl) as (Hadd & _ & _).
  destruct (oracle_add_remove plain_policyId iso_dates (ctx_of contract_account)
              s_init "weather-oracle.testnet" "weather-oracle.testnet"
              contract_account eq_refl) as (_ & Hrem & _).
  split; [exact Hadd | exact Hrem].
Defined.

(** [transfers_only_in_own_calls]: the farmer's claim on a breach schedules
    nothing. *)
Lemma transfers_only_in_own_calls_witness :
  let s := run [(ctx_of farmer_account, FileClaim "policy_1" "heat" extreme_weather)]
               s_active in
  promises s = promises s_active /\ totalClaimsPaid s = totalClaimsPaid s_active.
Proof.
  intros s.
  apply (transfers_only_in_own_calls plain_policyId iso_dates (ctx_of farmer_account)
           s_active (FileClaim "policy_1" "heat" extreme_weather)).
  simpl. discriminate.
Defined.

(** [payouts_are_accounted] on the history that leads to the first payout. *)
Lemma payouts_are_accounted_witness :
  let tr := [ (ctx_of contract_account, create_wheat temperate);
              settle contract_account 5000000 "policy_1";
              (ctx_of contract_account, FileClaim "policy_1" "heat" extreme_weather) ] in
  sum_transfers (promises (run tr s_init)) - totalClaimsPaid (run tr s_init) = 0.
Proof.
  intros tr.
  apply (payouts_are_accounted plain_policyId iso_dates tr s_init).
  repeat constructor.
Defined.

(** [createPolicy_adds_a_new_policy] on the first policy of the contract. *)
Lemma createPolicy_adds_a_new_policy_witness :
  policies s_init !! "policy_1" = None
  /\ totalPolicies s_pending = 1%nat
  /\ is_Some (policies s_pending !! "policy_1").
Proof.
  destruct (createPolicy_adds_a_new_policy plain_policyId iso_dates []
              contract_account (ctx_of farmer_account) "wheat" temperate 100000000
              "2030-01-01" "2030-12-31" wheat_thresholds "policy_1" s_pending)
    as (Hnew & Hstored & Hcount & _).
  - vm_compute. reflexivity.
  - split; [exact Hnew|]. split; [exact Hcount|]. rewrite Hstored. eauto.
Defined.

(** [create_policy_overwrites_createPolicy] right after the first creation. *)
Lemma create_policy_overwrites_createPolicy_witness :
  exists s2,
    create_policy (ctx_of contract_account) "other.testnet" "rice" 1 1 30
      "WXM_STATION_001" "2030-01-01" "2030-12-31" s_pending = Return "policy_1" s2
    /\ policies s2 !! "policy_1"
       = Some (automation_policy "policy_1" "other.testnet" "rice" 1 1
                 "2030-01-01" "2030-12-31")
    /\ totalPolicies s2 = 2%nat.
Proof.
  destruct (create_policy_overwrites_createPolicy iso_dates
              (ctx_of farmer_account) (ctx_of contract_account) s_init s_pending
              "wheat" temperate 100000000 "2030-01-01" "2030-12-31"
              wheat_thresholds "policy_1" "other.testnet" "rice" 1 1 30
              "WXM_STATION_001" "2030-01-01" "2030-12-31")
    as (s2 & Hret & _ & Hp & Hn).
  - vm_compute. reflexivity.
  - exists s2. split; [exact Hret|]. split; [exact Hp | exact Hn].
Defined.

(** [records_are_never_deleted]: the Active policy survives a status
    rewrite and an automation entry. *)
Lemma records_are_never_deleted_witness :
  let tr := [ (ctx_of farmer_account, UpdatePolicyStatus "policy_1" "expired");
              (ctx_of farmer_account,
               Create_policy farmer_account "rice" 1 1 30 "WXM_STATION_001"
                 "2030-01-01" "2030-12-31") ] in
  is_Some (policies (run tr s_active) !! "policy_1").
Proof.
  intros tr.
  destruct (records_are_never_deleted plain_policyId iso_dates tr s_active)
    as (Hpol & _ & _).
  apply Hpol. vm_compute. eauto.
Defined.

(** [policy_terms_are_fixed] over a settlement, a claim and a status
    rewrite of the Pending policy. *)
Lemma policy_terms_are_fixed_witness :
  let tr := [ settle farmer_account 5000000 "policy_1";
              (ctx_of farmer_account, FileClaim "policy_1" "none" mild_weather);
              (ctx_of farmer_account, UpdatePolicyStatus "policy_1" "expired") ] in
  exists p p', policies s_pending !! "policy_1" = Some p
    /\ policies (run tr s_pending) !! "policy_1" = Some p' /\ same_terms p p'.
Proof.
  intros tr.
  destruct (policies s_pending !! "policy_1") as [p|] eqn:Hp;
    [|vm_compute in Hp; discriminate].
  destruct (policy_terms_are_fixed plain_policyId iso_dates tr s_pending
              "policy_1" p) as (p' & Hp' & Hsame).
  - repeat constructor.
  - exact Hp.
  - exists p, p'. split; [reflexivity|]. split; [exact Hp' | exact Hsame].
Defined.

(** [claims_need_a_paid_premium] on the first claim of the contract's own
    policy. *)
Lemma claims_need_a_paid_premium_witness :
  exists p, policies s_own_active !! "policy_1" = Some p
    /\ farmer p = contract_account /\ premium p <= premiumPaid p.
Proof.
  apply (claims_need_a_paid_premium plain_policyId iso_dates
           [ (ctx_of contract_account, create_wheat temperate);
             settle contract_account 5000000 "policy_1" ]
           contract_account (ctx_of contract_account) "policy_1" "heat"
           extreme_weather "claim_1" s_own_claimed).
  vm_compute. reflexivity.
Defined.

(** [process_policy_claims_pays_nothing] on the Pending policy. *)
Lemma process_policy_claims_pays_nothing_witness :
  let s := run [(ctx_of farmer_account,
                 ProcessPolicyClaims "policy_1" 10 "cid" "2030-06-30")] s_pending in
  promises s = [] /\ claims s = claims s_pending /\ totalClaimsPaid s = 0.
Proof.
  intros s.
  destruct (process_policy_claims_pays_nothing plain_policyId iso_dates
              (ctx_of farmer_account) s_pending "policy_1" 10 "cid" "2030-06-30")
    as (Hpr & Hcl & Hpaid & _).
  split; [exact Hpr|]. split; [exact Hcl | exact Hpaid].
Defined.


(** [update_policy_status_does_not_activate] on the Pending policy. *)
Lemma update_policy_status_does_not_activate_witness :
  exists s',
    update_policy_status (ctx_of "anyone.testnet") "policy_1" active s_pending
      = Return tt s'
    /\ (exists p, policies s' !! "policy_1" = Some p
          /\ status p = active /\ isActive p = false)
    /\ exists m, fileClaim (ctx_of farmer_account) "policy_1" "heat"
                   extreme_weather s' = Panic m.
Proof.
  destruct (policies s_pending !! "policy_1") as [p|] eqn:Hp;
    [|vm_compute in Hp; discriminate].
  assert (Hact : isActive p = false)
    by (vm_compute in Hp; injection Hp as <-; reflexivity).
  destruct (update_policy_status_does_not_activate (ctx_of "anyone.testnet")
              (ctx_of farmer_account) s_pending "policy_1" p "heat"
              extreme_weather Hp Hact) as (s' & Hret & Hp' & _ & Hfile).
  exists s'. split; [exact Hret|]. split; [|exact Hfile].
  eexists. split; [exact Hp'|]. split; [reflexivity | exact Hact].
Defined.

(** [premium_bounds] on the wheat policy at latitude 30. *)
Lemma premium_bounds_witness :
  5000000 <= calculatePremium 100000000 "wheat" temperate <= 9750000.
Proof.
  destruct (premium_bounds iso_dates (ctx_of farmer_account) s_init s_pending
              "wheat" temperate 100000000 "2030-01-01" "2030-12-31"
              wheat_thresholds "policy_1") as (_ & Hlo & Hhi & _).
  - vm_compute. reflexivity.
  - split; [exact Hlo | exact Hhi].
Defined.





(** [received_weather_is_retrievable] for the oracle authorized at
    deployment. *)
Lemma received_weather_is_retrievable_witness :
  let s := run [(ctx_of "weather-oracle.testnet",
                 ReceiveWeather "WXM_STATION_001" 1700000000 "bafy")] s_init in
  getWeatherData "WXM_STATION_001" 1700000000 s
    = Some (received_observation "WXM_STATION_001" 1700000000 "bafy")
  /\ getWeatherData "WXM_STATION" 1700000000 s = None.
Proof.
  intros s.
  destruct (received_weather_is_retrievable plain_policyId iso_dates
              (ctx_of "weather-oracle.testnet") s_init "WXM_STATION_001"
              1700000000 "bafy") as [Hget Hother].
  - vm_compute. reflexivity.
  - split; [exact Hget|].
    etrans; [apply (Hother "WXM_STATION" 1700000000); discriminate|].
    vm_compute. reflexivity.
Defined.

(** [client_parseUSDC_formatUSDC] at 5.5 USDC and at one micro-unit. *)
Lemma client_parseUSDC_formatUSDC_witness :
  NearIntegration.formatUSDC 5500000 = "5.5"
  /\ NearIntegration.parseUSDC BigInt_decimal (NearIntegration.formatUSDC 5500000)
     = Some 5500000
  /\ NearIntegration.parseUSDC BigInt_decimal (NearIntegration.formatUSDC 1)
     = Some 1.
Proof.
  split; [vm_compute; reflexivity|].
  split; apply (client_parseUSDC_formatUSDC BigInt_decimal _ BigInt_decimal_reads);
    lia.
Defined.

(** [parseUSDC_formatUSDC] at 5.555555 USDC, which comes back as 5.55. *)
Lemma parseUSDC_formatUSDC_witness :
  formatUSDC 5555555 = "5.55"
  /\ parseUSDC BigInt_decimal (formatUSDC 5555555) = Some 5550000.
Proof.
  split; [vm_compute; reflexivity|].
  destruct (parseUSDC_formatUSDC BigInt_decimal 5555555 BigInt_decimal_reads)
    as [Hrt _]; [lia|].
  exact Hrt.
Defined.
